(** * plspm: inner and outer model statistics

    A shallow embedding of [plspm/inner_model.py] and [plspm/outer_model.py].

    Numbers.  The Python code computes in IEEE doubles; here every float is an
    exact rational ([Q]), compared with [==].  Integer tables (the path matrix,
    the outer design matrix) hold [Z].  A missing value (pandas' NaN produced by
    label alignment, or an undefined correlation) is [None] in an [option Q].

    Tables.  A pandas [DataFrame] keyed by labels on both axes is its two label
    lists together with the cell lookup; labels are assumed unique, as pandas
    requires for the scalar [.loc] accesses the code performs.  A table of
    observations (scores, indicator data) is a list of named columns.

    Exceptions are values of [exn], threaded by the [result] monad.

    The two numerical routines borrowed from other packages, the least-squares
    solver behind [statsmodels.OLS(...).fit()] and the Pearson correlation
    behind [DataFrame.corrwith], are section variables: every theorem holds
    whatever they return. *)

From Stdlib Require Import List String Ascii Bool Arith ZArith QArith Qabs.
From Stdlib Require Import Lia Lqa Permutation Relations.
From Stdlib Require Import Sorted.
Import ListNotations.

Open Scope string_scope.
Open Scope list_scope.
Open Scope Q_scope.

(* ================================================================== *)
(** ** Exceptions *)

Inductive exn : Type :=
| KeyError        (* a label that is not on the axis *)
| ValueError      (* "matrices are not aligned" *)
| AttributeError  (* a method called on None *)
| LinAlgError.    (* the least-squares fit failed *)

Inductive result (A : Type) : Type :=
| Ok (a : A)
| Err (e : exn).
Arguments Ok {A} a.
Arguments Err {A} e.

Definition bind {A B} (m : result A) (k : A -> result B) : result B :=
  match m with
  | Ok a => k a
  | Err e => Err e
  end.

Notation "x <- m ;; k" := (bind m (fun x => k))
  (at level 61, m at next level, right associativity).

(** [for x in xs: s = body(s, x)], stopping at the first exception. *)
Fixpoint for_each {S A} (body : S -> A -> result S) (xs : list A) (s : S)
  : result S :=
  match xs with
  | [] => Ok s
  | x :: xs' => s' <- body s x ;; for_each body xs' s'
  end.

(** [[f(x) for x in xs]], stopping at the first exception. *)
Fixpoint traverse {A B} (f : A -> result B) (xs : list A) : result (list B) :=
  match xs with
  | [] => Ok []
  | x :: xs' => y <- f x ;; ys <- traverse f xs' ;; Ok (y :: ys)
  end.

(* ================================================================== *)
(** ** Labels and label lists *)

Definition label := string.

Definition label_in (l : label) (ls : list label) : bool :=
  existsb (String.eqb l) ls.

Definition labels_eqb (a b : list label) : bool :=
  if list_eq_dec string_dec a b then true else false.

Fixpoint insert_label (l : label) (ls : list label) : list label :=
  match ls with
  | [] => [l]
  | x :: ls' => if String.leb l x then l :: ls else x :: insert_label l ls'
  end.

(** [Index.sort_values] on string labels. *)
Definition sort_labels (ls : list label) : list label :=
  fold_right insert_label [] ls.

(** [a.union(b)] for indexes with unique labels: [a] itself when the two are
    equal or [b] is empty, [b] when [a] is empty, otherwise the sorted
    union. *)
Definition index_union (a b : list label) : list label :=
  if labels_eqb a b then a
  else
    match a, b with
    | _, [] => a
    | [], _ => b
    | _, _ => sort_labels (a ++ filter (fun l => negb (label_in l a)) b)
    end.

(* ================================================================== *)
(** ** Label-keyed tables *)

Record DataFrame (V : Type) : Type := mkDataFrame {
  index : list label;
  columns : list label;
  cell : label -> label -> V
}.
Arguments mkDataFrame {V}.
Arguments index {V}.
Arguments columns {V}.
Arguments cell {V}.

Record Series (V : Type) : Type := mkSeries {
  s_index : list label;
  s_value : label -> V
}.
Arguments mkSeries {V}.
Arguments s_index {V}.
Arguments s_value {V}.

(** [pd.DataFrame(v, index=idx, columns=cols)] *)
Definition df_full {V} (v : V) (idx cols : list label) : DataFrame V :=
  mkDataFrame idx cols (fun _ _ => v).

(** [pd.Series(v, index=idx)] *)
Definition series_full {V} (v : V) (idx : list label) : Series V :=
  mkSeries idx (fun _ => v).

(** [df.loc[r, c]] read as a scalar, which it is when the two labels are
    unique on their axes; a repeated label, where pandas returns a Series,
    is outside the tables modelled here. *)
Definition loc {V} (df : DataFrame V) (r c : label) : result V :=
  if label_in r (index df) && label_in c (columns df)
  then Ok (cell df r c)
  else Err KeyError.

(** [s.loc[k] = v] for a label of the index. *)
Definition series_set {V} (s : Series V) (k : label) (v : V) : Series V :=
  mkSeries (s_index s) (fun l => if String.eqb l k then v else s_value s l).

Definition Qsum (xs : list Q) : Q := fold_left Qplus xs 0.
Definition Zsum (xs : list Z) : Z := fold_left Z.add xs 0%Z.

(** [a + b] for two frames carrying the same labels (every sum formed in
    [_effects] is between frames labelled like [path]). *)
Definition df_add (a b : DataFrame Q) : DataFrame Q :=
  mkDataFrame (index a) (columns a) (fun r c => cell a r c + cell b r c).

(** [a.dot(b)]: the columns of [a] are aligned with the index of [b]; when the
    union of the two is larger than either, pandas raises
    [ValueError("matrices are not aligned")]. *)
Definition dot (a b : DataFrame Q) : result (DataFrame Q) :=
  let common := index_union (columns a) (index b) in
  if (List.length (columns a) <? List.length common)%nat
     || (List.length (index b) <? List.length common)%nat
  then Err ValueError
  else Ok (mkDataFrame (index a) (columns b)
             (fun r c => Qsum (map (fun k => cell a r k * cell b k c) common))).

(* ================================================================== *)
(** ** inner_model.py: [_effects] *)

Record EffectRow : Type := mkEffect {
  e_index : string;      (* the row label, "from -> to" *)
  e_from : label;
  e_to : label;
  e_direct : Q;
  e_indirect : Q;
  e_total : Q
}.

Definition arrow (from_lv to_lv : label) : string :=
  String.append from_lv (String.append " -> " to_lv).

(** The dict [path_effects], keyed by the loop counter. *)
Definition dict := list (nat * DataFrame Q).

Fixpoint dict_get (d : dict) (k : nat) : result (DataFrame Q) :=
  match d with
  | [] => Err KeyError
  | (k', v) :: d' => if Nat.eqb k k' then Ok v else dict_get d' k
  end.

Definition dict_set (d : dict) (k : nat) (v : DataFrame Q) : dict :=
  (k, v) :: filter (fun kv => negb (Nat.eqb k (fst kv))) d.

(** [num_lvs = len(list(path))] *)
Definition num_lvs {V} (path : DataFrame V) : nat := List.length (columns path).

(** One turn of the loop at lines 46-48. *)
Definition series_step (path : DataFrame Q) (st : dict * DataFrame Q) (i : nat)
  : result (dict * DataFrame Q) :=
  let '(path_effects, indirect_paths) := st in
  prev <- dict_get path_effects (i - 1) ;;
  cur <- dot prev path ;;
  Ok (dict_set path_effects i cur, df_add indirect_paths cur).

(** Lines 44-48: the dict after the loop, and the accumulated indirect paths. *)
Definition power_series (path : DataFrame Q) : result (dict * DataFrame Q) :=
  for_each (series_step path) (seq 1 (num_lvs path - 1))
    ([(0%nat, path)], df_full 0 (index path) (columns path)).

(** The [else] branch of line 43, as a function of its own:
    (indirect_paths, total_paths). *)
Definition general_paths (path : DataFrame Q)
  : result (DataFrame Q * DataFrame Q) :=
  st <- power_series path ;;
  Ok (snd st, df_add path (snd st)).

(** Lines 34-49: (indirect_paths, total_paths). *)
Definition effect_paths (path : DataFrame Q)
  : result (DataFrame Q * DataFrame Q) :=
  if (num_lvs path =? 2)%nat
  then Ok (df_full 0 (index path) (columns path), path)
  else general_paths path.

(** Lines 52-60 for one pair: the table with the row appended when the test of
    line 52 holds.  [and] does not evaluate [.loc] when the labels are equal. *)
Definition effect_pair (path indirect_paths total_paths : DataFrame Q)
    (from_lv : label) (effects : list EffectRow) (to_lv : label)
  : result (list EffectRow) :=
  if negb (String.eqb from_lv to_lv) then
    t <- loc total_paths to_lv from_lv ;;
    if negb (Qeq_bool t 0) then
      d <- loc path to_lv from_lv ;;
      i <- loc indirect_paths to_lv from_lv ;;
      Ok (effects ++ [mkEffect (arrow from_lv to_lv) from_lv to_lv d i t])
    else Ok effects
  else Ok effects.

(** Lines 50-61. *)
Definition effect_rows (path indirect_paths total_paths : DataFrame Q)
  : result (list EffectRow) :=
  for_each
    (fun effects from_lv =>
       for_each (effect_pair path indirect_paths total_paths from_lv)
         (columns path) effects)
    (columns path) [].

Definition _effects (path : DataFrame Q) : result (list EffectRow) :=
  it <- effect_paths path ;;
  effect_rows path (fst it) (snd it).

(* ================================================================== *)
(** ** Tables of observations *)

(** One row per case, one named column per variable
    ([scores.shape[0]] is [nrows]). *)
Record Table : Type := mkTable {
  nrows : nat;
  series : list (label * list Q)
}.

Definition table_columns (t : Table) : list label := map fst (series t).

(** [t.loc[:, name]] *)
Fixpoint column_of (cols : list (label * list Q)) (name : label)
  : result (list Q) :=
  match cols with
  | [] => Err KeyError
  | (l, xs) :: cols' =>
      if String.eqb l name then Ok xs else column_of cols' name
  end.

(** [t.loc[:, names]]: a [KeyError] as soon as one name is not a column. *)
Definition table_loc (t : Table) (names : list label)
  : result (list (label * list Q)) :=
  traverse (fun l => xs <- column_of (series t) l ;; Ok (l, xs)) names.

(* ================================================================== *)
(** ** statsmodels: [add_constant], [OLS(...).fit()] *)

(** A column that is constant and not zero ([np.ptp(s) == 0 and
    np.any(s != 0)]; an empty column is not). *)
Definition is_const (xs : list Q) : bool :=
  match xs with
  | [] => false
  | x :: rest => forallb (Qeq_bool x) rest && negb (Qeq_bool x 0)
  end.

(** [sm.add_constant(x)] with its defaults [prepend=True],
    [has_constant='skip']: nothing is added when a column is already a
    non-zero constant. *)
Definition add_constant (n : nat) (x : list (label * list Q))
  : list (label * list Q) :=
  if existsb (fun c => is_const (snd c)) x then x
  else ("const", repeat 1 n) :: x.

(** What a fit reports for one column of the design. *)
Record Estimate : Type := mkEstimate {
  estimate : Q;
  std_error : Q;
  t_value : Q;
  p_value : Q
}.

Record RegressionResults : Type := mkRegression {
  terms : list (label * Estimate);   (* params, bse, tvalues, pvalues *)
  rsquared : Q
}.

Definition Qsq (x : Q) : Q := x * x.

(** The fitted value of case [i]. *)
Definition fitted (betas : list Q) (exog : list (list Q)) (i : nat) : Q :=
  Qsum (map (fun bx => fst bx * nth i (snd bx) 0) (combine betas exog)).

(** Sum of squared residuals. *)
Definition ssr (endog : list Q) (betas : list Q) (exog : list (list Q)) : Q :=
  Qsum (map (fun iy => Qsq (snd iy - fitted betas exog (fst iy)))
          (combine (seq 0 (List.length endog)) endog)).

Definition mean (xs : list Q) : Q :=
  Qsum xs / inject_Z (Z.of_nat (List.length xs)).

(** Total sum of squares about the mean. *)
Definition centered_tss (endog : list Q) : Q :=
  Qsum (map (fun y => Qsq (y - mean endog)) endog).

(** The part of [regression.params] that the assignment of line 78 aligns
    with a predictor label. *)
Fixpoint param_of (ts : list (label * Estimate)) (l : label) : Q :=
  match ts with
  | [] => 0
  | (l', e) :: ts' => if String.eqb l' l then estimate e else param_of ts' l
  end.

(* ================================================================== *)
(** ** inner_model.py: [_summary] *)

Record SummaryRow : Type := mkSummary {
  sm_index : string;
  sm_from : label;
  sm_to : label;
  sm_estimate : Q;
  sm_std_error : Q;
  sm_t : Q;
  sm_p : Q
}.

(** [summary.drop(['const'])] raises [KeyError] when no row is labelled
    [const]. *)
Definition _summary (dv : label) (regression : RegressionResults)
  : result (list SummaryRow) :=
  if label_in "const" (map fst (terms regression)) then
    Ok (map (fun t => mkSummary (arrow (fst t) dv) (fst t) dv
                        (estimate (snd t)) (std_error (snd t))
                        (t_value (snd t)) (p_value (snd t)))
          (filter (fun t => negb (String.eqb (fst t) "const"))
             (terms regression)))
  else Err KeyError.

(** [pd.concat([a, b])] where [a] may still be [None]. *)
Definition concat_summaries (a : option (list SummaryRow))
    (b : list SummaryRow) : option (list SummaryRow) :=
  match a with
  | None => Some b
  | Some rows => Some (rows ++ b)
  end.

(* ================================================================== *)
(** ** inner_model.py: [InnerModel] *)

Record InnerModel : Type := mkInnerModel {
  summaries : option (list SummaryRow);    (* self.__summaries *)
  r_squared : Series Q;                    (* r_squared() *)
  r_squared_adj : Series Q;                (* r_squared_adj() *)
  path_coefficients : DataFrame Q;         (* path_coefficients() *)
  endogenous : list label;                 (* endogenous() *)
  effects : list EffectRow                 (* effects() *)
}.

(** [inner_model()]: [None.set_index] is an [AttributeError]. *)
Definition inner_model (m : InnerModel) : result (list SummaryRow) :=
  match summaries m with
  | None => Err AttributeError
  | Some rows => Ok rows
  end.

(** [path.loc[dv].sum()] *)
Definition row_sum (path : DataFrame Z) (dv : label) : Z :=
  Zsum (map (cell path dv) (columns path)).

(** Lines 71-72: [path.sum(axis=1).astype(bool)], then the labels that are
    [True]. *)
Definition endogenous_of (path : DataFrame Z) : list label :=
  filter (fun dv => negb (row_sum path dv =? 0)%Z) (index path).

(** Line 75: [path.loc[dv,][path.loc[dv,] == 1].index] *)
Definition predictors (path : DataFrame Z) (dv : label) : list label :=
  filter (fun iv => (cell path dv iv =? 1)%Z) (columns path).

(** Line 81. *)
Definition adjusted (rsq : Q) (rows : nat) (p : Z) : Q :=
  1 - (1 - rsq) * inject_Z (Z.of_nat rows - 1)
      / inject_Z (Z.of_nat rows - p - 1).

(** [self.__path_coefficients.loc[dv, ivs] = regression.params] *)
Definition set_row (coefs : DataFrame Q) (dv : label) (ivs : list label)
    (regression : RegressionResults) : DataFrame Q :=
  mkDataFrame (index coefs) (columns coefs)
    (fun r c => if String.eqb r dv && label_in c ivs
                then param_of (terms regression) c
                else cell coefs r c).

Fixpoint unique_labels (ls : list label) : bool :=
  match ls with
  | [] => true
  | l :: ls' => negb (label_in l ls') && unique_labels ls'
  end.

(** The alignment of line 78: pandas does not reindex [regression.params]
    when it carries a label twice (the intercept [const] next to a predictor
    named const) and raises [ValueError]. *)
Definition aligned_params (regression : RegressionResults) : result unit :=
  if unique_labels (map fst (terms regression)) then Ok tt
  else Err ValueError.

Section Inner.

(** The least-squares solver: from the response and the columns of the design
    to one [Estimate] per column, or nothing when the fit fails. *)
Variable ols_solver : list Q -> list (list Q) -> option (list Estimate).

(** [sm.OLS(endog, exog).fit()].  [rsquared] is [1 - ssr/centered_tss], as
    statsmodels defines it for a design with a constant.  For a response
    that does not vary [centered_tss] is 0 and the doubles give [-inf] or
    [nan]; the rationals have no such value (the quotient is 0 there), so
    whatever is stated of the value of R-squared assumes a response that
    varies. *)
Definition OLS_fit (endog : list Q) (exog : list (label * list Q))
  : result RegressionResults :=
  match ols_solver endog (map snd exog) with
  | None => Err LinAlgError
  | Some est =>
      if (List.length est =? List.length exog)%nat then
        Ok (mkRegression (combine (map fst exog) est)
              (1 - ssr endog (map estimate est) (map snd exog)
                   / centered_tss endog))
      else Err LinAlgError
  end.

(** Lines 75-77. *)
Definition regress (path : DataFrame Z) (scores : Table) (dv : label)
  : result RegressionResults :=
  exog <- table_loc scores (predictors path dv) ;;
  endog <- column_of (series scores) dv ;;
  OLS_fit endog (add_constant (nrows scores) exog).

(** The four attributes the loop of line 74 updates. *)
Record Fitting : Type := mkFitting {
  f_summaries : option (list SummaryRow);
  f_r_squared : Series Q;
  f_r_squared_adj : Series Q;
  f_path_coefficients : DataFrame Q
}.

(** Lines 75-82. *)
Definition fit_one (path : DataFrame Z) (scores : Table) (st : Fitting)
    (dv : label) : result Fitting :=
  regression <- regress path scores dv ;;
  aligned <- aligned_params regression ;;
  rows <- _summary dv regression ;;
  Ok (mkFitting
        (concat_summaries (f_summaries st) rows)
        (series_set (f_r_squared st) dv (rsquared regression))
        (series_set (f_r_squared_adj st) dv
           (adjusted (rsquared regression) (nrows scores) (row_sum path dv)))
        (set_row (f_path_coefficients st) dv (predictors path dv) regression)).

(** Lines 67-70. *)
Definition initial (path : DataFrame Z) : Fitting :=
  mkFitting None
    (series_full 0 (index path))
    (series_full 0 (index path))
    (df_full 0 (index path) (columns path)).

(** [InnerModel.__init__] *)
Definition InnerModel_init (path : DataFrame Z) (scores : Table)
  : result InnerModel :=
  st <- for_each (fit_one path scores) (endogenous_of path) (initial path) ;;
  eff <- _effects (f_path_coefficients st) ;;
  Ok (mkInnerModel (f_summaries st) (f_r_squared st) (f_r_squared_adj st)
        (f_path_coefficients st) (endogenous_of path) eff).

End Inner.

(* ================================================================== *)
(** ** outer_model.py: [OuterModel] *)

(** The values that are not NaN, in order ([skipna=True]). *)
Definition present_values (xs : list (option Q)) : list Q :=
  flat_map (fun x => match x with Some v => [v] | None => [] end) xs.

(** [df.sum(axis=1)]: NaN cells are skipped. *)
Definition sum_rows (df : DataFrame (option Q)) : Series Q :=
  mkSeries (index df)
    (fun r => Qsum (present_values (map (cell df r) (columns df)))).

(** [a * b]: both axes are aligned on the union of the labels, and a cell
    missing on either side is NaN. *)
Definition mul_aligned (a : DataFrame (option Q)) (b : DataFrame Z)
  : DataFrame (option Q) :=
  mkDataFrame (index_union (index a) (index b))
    (index_union (columns a) (columns b))
    (fun r c =>
       if label_in r (index a) && label_in c (columns a)
          && label_in r (index b) && label_in c (columns b)
       then option_map (fun x => x * inject_Z (cell b r c)) (cell a r c)
       else None).

(** [pd.DataFrame(np.diag(s), index=s.index, columns=s.index)] *)
Definition diag (s : Series Q) : DataFrame Q :=
  mkDataFrame (s_index s) (s_index s)
    (fun k j => if String.eqb k j then s_value s k else 0).

Definition as_float (df : DataFrame Z) : DataFrame Q :=
  mkDataFrame (index df) (columns df) (fun r c => inject_Z (cell df r c)).

(** The product of two one-column frames whose column has the same name:
    aligned on the union of the two indexes. *)
Definition mul_columns (a b : Series Q) : Series (option Q) :=
  mkSeries (index_union (s_index a) (s_index b))
    (fun r => if label_in r (s_index a) && label_in r (s_index b)
              then Some (s_value a r * s_value b r)
              else None).

(** A column as it stands after [pd.concat(..., axis=1)] has reindexed it. *)
Definition joined {V} (idx : list label) (v : label -> option V) (r : label)
  : option V :=
  if label_in r idx then v r else None.

(** [pd.concat([weights, loading, communality, redundancy], axis=1,
    sort=True)] on indexes with unique labels: the rows are the sorted union
    of the four indexes; the columns are those of [weights], then [loading],
    [communality] and [redundancy] (names that [weights] is expected not to
    use).  An index with a repeated label, which pandas refuses to join, is
    outside the tables modelled here. *)
Definition concat_columns (weights : DataFrame Q)
    (loading communality : Series Q) (redundancy : Series (option Q))
  : DataFrame (option Q) :=
  mkDataFrame
    (sort_labels (nodup string_dec
       (index weights ++ s_index loading ++ s_index communality
        ++ s_index redundancy)))
    (columns weights ++ ["loading"; "communality"; "redundancy"])
    (fun r c =>
       if String.eqb c "loading" then
         joined (s_index loading) (fun l => Some (s_value loading l)) r
       else if String.eqb c "communality" then
         joined (s_index communality) (fun l => Some (s_value communality l)) r
       else if String.eqb c "redundancy" then
         joined (s_index redundancy) (s_value redundancy) r
       else if label_in c (columns weights) then
         joined (index weights) (fun l => Some (cell weights l c)) r
       else None).

Record OuterModel : Type := mkOuterModel {
  crossloadings : DataFrame (option Q);    (* crossloadings() *)
  model : DataFrame (option Q)             (* model() *)
}.

Section Outer.

(** [Series.corr]: Pearson's correlation of two columns of observations, NaN
    when it is undefined. *)
Variable corr : list Q -> list Q -> option Q.

(** Line 24: [y.apply(lambda s: data.corrwith(s))] *)
Definition cross_loadings (data y : Table) : DataFrame (option Q) :=
  mkDataFrame (table_columns data) (table_columns y)
    (fun i j =>
       match column_of (series data) i, column_of (series y) j with
       | Ok x, Ok s => corr x s
       | _, _ => None
       end).

(** Line 25. *)
Definition loading_of (cl : DataFrame (option Q)) (odm : DataFrame Z)
  : Series Q :=
  sum_rows (mul_aligned cl odm).

(** Line 26: [pow(s, 2)] on the whole column. *)
Definition communality_of (loading : Series Q) : Series Q :=
  mkSeries (s_index loading) (fun i => s_value loading i ^ 2).

(** Lines 28-29. *)
Definition r_squared_aux (odm : DataFrame Z) (r_squared : Series Q)
  : result (Series Q) :=
  prod <- dot (as_float odm) (diag r_squared) ;;
  Ok (mkSeries (index prod)
        (fun i => Qsum (map (cell prod i) (columns prod)))).

(** [OuterModel.__init__] *)
Definition OuterModel_init (data y : Table) (weights : DataFrame Q)
    (odm : DataFrame Z) (r_squared : Series Q) : result OuterModel :=
  let cl := cross_loadings data y in
  let loading := loading_of cl odm in
  let communality := communality_of loading in
  aux <- r_squared_aux odm r_squared ;;
  let redundancy := mul_columns communality aux in
  Ok (mkOuterModel cl (concat_columns weights loading communality redundancy)).

End Outer.

(* ================================================================== *)
(** ** Rational instances of the two numerical routines

    Used to run the model on concrete tables. *)

Definition Qdot (xs ys : list Q) : Q :=
  Qsum (map (fun p => fst p * snd p) (combine xs ys)).

(** The first row whose leading entry is not zero, and the other rows. *)
Fixpoint pick_pivot (rows : list (list Q))
  : option (list Q * list (list Q)) :=
  match rows with
  | [] => None
  | r :: rest =>
      match r with
      | [] => None
      | a :: _ =>
          if Qeq_bool a 0 then
            match pick_pivot rest with
            | Some (p, others) => Some (p, r :: others)
            | None => None
            end
          else Some (r, rest)
      end
  end.

Definition eliminate (pivot row : list Q) : list Q :=
  match pivot, row with
  | a :: ptail, c :: rtail =>
      map (fun xy => Qred (fst xy - c / a * snd xy)) (combine rtail ptail)
  | _, _ => []
  end.

(** Gaussian elimination on the augmented rows of a system in [n] unknowns;
    [None] when the system is singular. *)
Fixpoint gauss (n : nat) (rows : list (list Q)) : option (list Q) :=
  match n with
  | O => Some []
  | S n' =>
      match pick_pivot rows with
      | Some (a :: ptail, others) =>
          match gauss n' (map (eliminate (a :: ptail)) others) with
          | Some xs =>
              let rhs := last ptail 0 - Qdot (removelast ptail) xs in
              Some (Qred (rhs / a) :: xs)
          | None => None
          end
      | _ => None
      end
  end.

(** Least squares by the normal equations [X'X b = X'y].  Standard errors,
    t and p values are not rational numbers in general and are left at 0. *)
Definition normal_equations (endog : list Q) (exog : list (list Q))
  : option (list Estimate) :=
  option_map (map (fun b => mkEstimate b 0 0 0))
    (gauss (List.length exog)
       (map (fun cj => map (Qdot cj) exog ++ [Qdot cj endog]) exog)).

(** The square root of a rational that is a perfect square. *)
Definition Qsqrt_exact (q : Q) : option Q :=
  let r := Qred q in
  let n := Z.sqrt (Qnum r) in
  let d := Z.sqrt (Zpos (Qden r)) in
  if ((n * n =? Qnum r) && (d * d =? Zpos (Qden r)))%Z
  then Some (inject_Z n / inject_Z d)
  else None.

(** Pearson's correlation where it is rational; NaN for a constant column. *)
Definition pearson (xs ys : list Q) : option Q :=
  let dx := map (fun x => x - mean xs) xs in
  let dy := map (fun y => y - mean ys) ys in
  match Qsqrt_exact (Qdot dx dx * Qdot dy dy) with
  | Some s => if Qeq_bool s 0 then None else Some (Qred (Qdot dx dy / s))
  | None => None
  end.

(* ================================================================== *)
(** ** Tables to run the model on *)

Definition is_ok {A} (r : result A) : bool :=
  match r with
  | Ok _ => true
  | Err _ => false
  end.

(** The chain A -> B -> C. *)
Definition chain_path : DataFrame Z :=
  mkDataFrame ["A"; "B"; "C"] ["A"; "B"; "C"]
    (fun r c => if (String.eqb r "B" && String.eqb c "A")
                   || (String.eqb r "C" && String.eqb c "B")
                then 1%Z else 0%Z).

Definition chain_scores : Table :=
  mkTable 4 [("A", [1; 2; 3; 4]); ("B", [2; 3; 5; 9]); ("C", [1; 0; 4; 5])].

Definition no_model : InnerModel :=
  mkInnerModel None (series_full 0 []) (series_full 0 []) (df_full 0 [] [])
    [] [].

Definition chain_model : InnerModel :=
  match InnerModel_init normal_equations chain_path chain_scores with
  | Ok m => m
  | Err _ => no_model
  end.

(** Path coefficients 2 on A -> B and 3 on B -> C. *)
Definition chain_coefficients : DataFrame Q :=
  mkDataFrame ["A"; "B"; "C"] ["A"; "B"; "C"]
    (fun r c => if String.eqb r "B" && String.eqb c "A" then 2
                else if String.eqb r "C" && String.eqb c "B" then 3
                else 0).

(** Three latent variables and no arrow. *)
Definition empty_path : DataFrame Z :=
  df_full 0%Z ["A"; "B"; "C"] ["A"; "B"; "C"].

(** One arrow X -> Y, with coefficient 2. *)
Definition arrow_coefficients : DataFrame Q :=
  mkDataFrame ["X"; "Y"] ["X"; "Y"]
    (fun r c => if String.eqb r "Y" && String.eqb c "X" then 2 else 0).

Definition arrow_rank (l : label) : nat :=
  if String.eqb l "X" then 0%nat else 1%nat.

(** One arrow X -> Y, and scores that also hold a column Z. *)
Definition arrow_path : DataFrame Z :=
  mkDataFrame ["X"; "Y"] ["X"; "Y"]
    (fun r c => if String.eqb r "Y" && String.eqb c "X" then 1%Z else 0%Z).

Definition wide_scores : Table :=
  mkTable 3 [("X", [1; 2; 3]); ("Y", [1; 3; 2]); ("Z", [3; 1; 2])].

Definition short_scores : Table :=
  mkTable 3 [("Y", [1; 3; 2])].

Definition narrow_scores : Table :=
  mkTable 3 [("X", [1; 2; 3]); ("Y", [1; 3; 2])].

(** Two blocks: x1 and x2 measure X, y1 measures Y. *)
Definition block_data : Table :=
  mkTable 3 [("x1", [2; 4; 6]); ("x2", [1; 3; 2]); ("y1", [3; 1; 2])].

Definition block_scores : Table :=
  mkTable 3 [("X", [1; 2; 3]); ("Y", [3; 2; 1])].

Definition block_odm : DataFrame Z :=
  mkDataFrame ["x1"; "x2"; "y1"] ["X"; "Y"]
    (fun i lv => if (String.eqb lv "X"
                     && (String.eqb i "x1" || String.eqb i "x2"))
                    || (String.eqb lv "Y" && String.eqb i "y1")
                 then 1%Z else 0%Z).

Definition block_weights : DataFrame Q :=
  mkDataFrame ["x1"; "x2"; "y1"] ["weight"] (fun _ _ => 1 # 2).

Definition block_r_squared : Series Q :=
  mkSeries ["X"; "Y"] (fun lv => if String.eqb lv "Y" then 1 # 4 else 0).

Definition no_outer : OuterModel :=
  mkOuterModel (df_full None [] []) (df_full None [] []).

Definition block_model : OuterModel :=
  match OuterModel_init pearson block_data block_scores block_weights
          block_odm block_r_squared with
  | Ok m => m
  | Err _ => no_outer
  end.

(** The same blocks, with data that lack x2 and hold an indicator z1 that
    the outer design matrix does not know. *)
Definition other_data : Table :=
  mkTable 3 [("x1", [2; 4; 6]); ("y1", [3; 1; 2]); ("z1", [1; 2; 3])].

(** An R-squared series over other latent variables. *)
Definition other_r_squared : Series Q :=
  mkSeries ["X"; "W"] (fun _ => 0).

(* ================================================================== *)
(** ** Vocabulary of the statements *)

(** Two label lists that name the same things, each once. *)
Definition same_labels (a b : list label) : Prop :=
  NoDup a /\ NoDup b /\ forall l, In l a <-> In l b.

(** A square table: rows and columns carry the same labels, each once. *)
Definition square {V} (path : DataFrame V) : Prop :=
  same_labels (columns path) (index path).

(** [a] has the axes of [path]. *)
Definition labelled_like {V W} (a : DataFrame V) (path : DataFrame W) : Prop :=
  index a = index path /\ columns a = columns path.

(** The row of the effects table for the pair ([from_lv], [to_lv]). *)
Definition effect_of (path indirect_paths total_paths : DataFrame Q)
    (from_lv to_lv : label) : EffectRow :=
  mkEffect (arrow from_lv to_lv) from_lv to_lv
    (cell path to_lv from_lv) (cell indirect_paths to_lv from_lv)
    (cell total_paths to_lv from_lv).

(** The test of line 52. *)
Definition has_effect (total_paths : DataFrame Q) (from_lv to_lv : label)
  : bool :=
  negb (String.eqb from_lv to_lv)
  && negb (Qeq_bool (cell total_paths to_lv from_lv) 0).

Definition pair_rows (path indirect_paths total_paths : DataFrame Q)
    (from_lv to_lv : label) : list EffectRow :=
  if has_effect total_paths from_lv to_lv
  then [effect_of path indirect_paths total_paths from_lv to_lv]
  else [].

Definition effect_key (e : EffectRow) : label * label := (e_from e, e_to e).

(** An arrow of the structural model: [to_lv] has a non-zero coefficient on
    [from_lv]. *)
Definition has_arrow (path : DataFrame Q) (from_lv to_lv : label) : Prop :=
  In from_lv (columns path) /\ In to_lv (columns path) /\
  ~ cell path to_lv from_lv == 0.

(** No latent variable is reached from itself along arrows. *)
Definition acyclic (path : DataFrame Q) : Prop :=
  forall l, ~ clos_trans label (has_arrow path) l l.

Definition zero_diagonal (path : DataFrame Q) : Prop :=
  forall l, In l (columns path) -> cell path l l == 0.

Definition all_zero (df : DataFrame Q) : Prop :=
  forall r c, cell df r c == 0.

(** A path matrix holds only 0 and 1. *)
Definition binary (path : DataFrame Z) : Prop :=
  forall r c, In r (index path) -> In c (columns path) ->
    cell path r c = 0%Z \/ cell path r c = 1%Z.

(** Every indicator belongs to at most one block: the outer design matrix
    holds 0 and 1, with at most one 1 in a row. *)
Definition single_block (odm : DataFrame Z) : Prop :=
  binary odm /\
  forall i j k, In i (index odm) -> In j (columns odm) -> In k (columns odm) ->
    cell odm i j = 1%Z -> cell odm i k = 1%Z -> j = k.

(** [lv] is the latent variable whose block holds indicator [i]. *)
Definition owner (odm : DataFrame Z) (i lv : label) : Prop :=
  In i (index odm) /\ In lv (columns odm) /\ cell odm i lv = 1%Z /\
  forall k, In k (columns odm) -> k <> lv -> cell odm i k = 0%Z.

(* ================================================================== *)
(** ** Further tables and vocabulary *)

(** A single latent variable, whose row and column labels differ. *)
Definition lonely_coefficients : DataFrame Q :=
  mkDataFrame ["row"] ["A"] (fun _ _ => 5).

(** Three columns A, B, C over the rows A, B, D. *)
Definition skewed_coefficients : DataFrame Q :=
  mkDataFrame ["A"; "B"; "D"] ["A"; "B"; "C"] (fun _ _ => 1).

(** Two columns X, Y over the rows X, W. *)
Definition offside_coefficients : DataFrame Q :=
  mkDataFrame ["X"; "W"] ["X"; "Y"] (fun _ _ => 1).

(** Every entry of row [r] is zero. *)
Definition row_zero (df : DataFrame Q) (r : label) : Prop :=
  forall c, cell df r c == 0.

(** Every entry of column [c] is zero. *)
Definition column_zero (df : DataFrame Q) (c : label) : Prop :=
  forall r, cell df r c == 0.

(** Scores in which the predictor X does not vary. *)
Definition flat_scores : Table :=
  mkTable 3 [("X", [2; 2; 2]); ("Y", [1; 3; 2])].

Definition summary_key (row : SummaryRow) : label * label :=
  (sm_from row, sm_to row).

(** The arrows into [dv], as (from, to), in the order of the columns; a
    predictor that happens to be called const has no row of its own. *)
Definition arrows_into (path : DataFrame Z) (dv : label)
  : list (label * label) :=
  map (fun iv => (iv, dv))
    (filter (fun iv => negb (String.eqb iv "const")) (predictors path dv)).

Definition rows_of (a : option (list SummaryRow)) : list SummaryRow :=
  match a with
  | None => []
  | Some rows => rows
  end.

(** A latent variable that is named const, and varies. *)
Definition const_path : DataFrame Z :=
  mkDataFrame ["const"; "Y"] ["const"; "Y"]
    (fun r c => if String.eqb r "Y" && String.eqb c "const"
                then 1%Z else 0%Z).

Definition const_scores : Table :=
  mkTable 3 [("const", [1; 2; 3]); ("Y", [1; 3; 2])].

(** A response that varies: its sum of squares about the mean is not 0. *)
Definition varies (xs : list Q) : Prop := ~ centered_tss xs == 0.


Definition other_model : OuterModel :=
  match OuterModel_init pearson other_data block_scores block_weights
          block_odm block_r_squared with
  | Ok m => m
  | Err _ => no_outer
  end.

(* ================================================================== *)
(** * Properties *)

(** ** The monad and its loops *)

Lemma bind_ok {A B} (m : result A) (k : A -> result B) (b : B) :
  bind m k = Ok b <-> exists a, m = Ok a /\ k a = Ok b.
Proof.
  destruct m as [a|e]; simpl; split.
  - intros H; exists a; auto.
  - intros (a' & Ha & Hk); inversion Ha; subst; auto.
  - discriminate.
  - intros (a' & Ha & _); discriminate.
Qed.

(** A loop whose every turn appends what [emit] gives for the element. *)
Lemma for_each_emit {A B} (body : list B -> A -> result (list B))
    (emit : A -> list B) (xs : list A) :
  (forall acc x, In x xs -> body acc x = Ok (acc ++ emit x)) ->
  forall acc, for_each body xs acc = Ok (acc ++ flat_map emit xs).
Proof.
  induction xs as [|x xs IH]; intros Hbody acc; simpl.
  - now rewrite app_nil_r.
  - rewrite Hbody by now left. simpl.
    rewrite IH by (intros; apply Hbody; now right).
    now rewrite app_assoc.
Qed.

(** ** Labels *)

Lemma label_in_iff (l : label) (ls : list label) :
  label_in l ls = true <-> In l ls.
Proof.
  unfold label_in. rewrite existsb_exists. split.
  - intros (x & Hx & E). apply String.eqb_eq in E. now subst.
  - intros H. exists l. split; auto. apply String.eqb_refl.
Qed.

Lemma label_in_false (l : label) (ls : list label) :
  label_in l ls = false <-> ~ In l ls.
Proof.
  rewrite <- label_in_iff. destruct (label_in l ls); split; congruence.
Qed.

Lemma insert_label_perm (l : label) (ls : list label) :
  Permutation (insert_label l ls) (l :: ls).
Proof.
  induction ls as [|x ls IH]; simpl; auto.
  destruct (String.leb l x); auto.
  rewrite IH. apply perm_swap.
Qed.

Lemma sort_labels_perm (ls : list label) : Permutation (sort_labels ls) ls.
Proof.
  induction ls as [|x ls IH]; simpl; auto.
  rewrite insert_label_perm. now constructor.
Qed.

Lemma filter_none {A} (f : A -> bool) (xs : list A) :
  (forall x, In x xs -> f x = false) -> filter f xs = [].
Proof.
  induction xs as [|x xs IH]; intros H; simpl; auto.
  rewrite (H x) by now left. apply IH. intros; apply H; now right.
Qed.

Lemma same_labels_perm (a b : list label) :
  same_labels a b -> Permutation a b.
Proof.
  intros (Ha & Hb & Hab). now apply NoDup_Permutation.
Qed.

Lemma index_union_same (a b : list label) :
  same_labels a b -> Permutation (index_union a b) a.
Proof.
  intros (Ha & Hb & Hab). unfold index_union.
  destruct (labels_eqb a b); auto.
  destruct a as [|x a], b as [|y b]; auto.
  - now apply NoDup_Permutation; [| |intros l; symmetry].
  - rewrite filter_none.
    + rewrite app_nil_r. apply sort_labels_perm.
    + intros l Hl. apply Hab in Hl. apply label_in_iff in Hl. now rewrite Hl.
Qed.

(** ** Sums *)

Lemma fold_Qplus_shift (xs : list Q) (a : Q) :
  fold_left Qplus xs a == a + Qsum xs.
Proof.
  unfold Qsum. revert a.
  induction xs as [|x xs IH]; intros a; simpl.
  - ring.
  - rewrite IH, (IH (0 + x)). ring.
Qed.

Lemma Qsum_cons (x : Q) (xs : list Q) : Qsum (x :: xs) == x + Qsum xs.
Proof.
  unfold Qsum at 1. simpl. rewrite fold_Qplus_shift. ring.
Qed.

Lemma Qsum_zero (xs : list Q) :
  (forall x, In x xs -> x == 0) -> Qsum xs == 0.
Proof.
  induction xs as [|x xs IH]; intros H.
  - reflexivity.
  - assert (Hx : x == 0) by (apply H; now left).
    assert (Hxs : Qsum xs == 0) by (apply IH; intros; apply H; now right).
    rewrite Qsum_cons, Hx, Hxs. ring.
Qed.

Lemma Qsum_nonneg (xs : list Q) :
  (forall x, In x xs -> 0 <= x) -> 0 <= Qsum xs.
Proof.
  induction xs as [|x xs IH]; intros H.
  - apply Qle_refl.
  - rewrite Qsum_cons.
    assert (0 <= x) by (apply H; now left).
    assert (0 <= Qsum xs) by (apply IH; intros; apply H; now right).
    lra.
Qed.

(** ** [dot] on aligned frames *)

Lemma dot_aligned (a b : DataFrame Q) :
  same_labels (columns a) (index b) ->
  exists common,
    Permutation common (columns a) /\
    dot a b = Ok (mkDataFrame (index a) (columns b)
                    (fun r c => Qsum (map (fun k => cell a r k * cell b k c)
                                        common))).
Proof.
  intros H. exists (index_union (columns a) (index b)).
  pose proof (index_union_same _ _ H) as P.
  split; auto. unfold dot.
  rewrite (Permutation_length P).
  rewrite <- (Permutation_length (same_labels_perm _ _ H)).
  now rewrite Nat.ltb_irrefl.
Qed.

(** ** The dict [path_effects] *)

Lemma dict_get_filter (d : dict) (k k' : nat) :
  k' <> k ->
  dict_get (filter (fun kv => negb (Nat.eqb k (fst kv))) d) k' = dict_get d k'.
Proof.
  intros Hk. induction d as [|[j v] d IH]; simpl; auto.
  destruct (Nat.eqb_spec k j) as [->|Hkj]; simpl.
  - destruct (Nat.eqb_spec k' j); [contradiction | exact IH].
  - destruct (Nat.eqb k' j); auto.
Qed.

Lemma dict_get_set_same (d : dict) (k : nat) (v : DataFrame Q) :
  dict_get (dict_set d k v) k = Ok v.
Proof. unfold dict_set; simpl. now rewrite Nat.eqb_refl. Qed.

Lemma dict_get_set_other (d : dict) (k k' : nat) (v : DataFrame Q) :
  k' <> k -> dict_get (dict_set d k v) k' = dict_get d k'.
Proof.
  intros Hk. unfold dict_set; simpl.
  destruct (Nat.eqb_spec k' k); [contradiction|].
  now apply dict_get_filter.
Qed.

(** ** The loop of [_effects] *)

Lemma dot_labelled (prev path : DataFrame Q) :
  square path -> labelled_like prev path ->
  exists cur, dot prev path = Ok cur /\ labelled_like cur path.
Proof.
  intros Hsq [Hi Hc].
  destruct (dot_aligned prev path) as (common & _ & E).
  - now rewrite Hc.
  - eexists; split; [exact E|]. split; simpl; auto.
Qed.

Lemma series_loop (path : DataFrame Q) :
  square path ->
  forall n start path_effects indirect_paths prev,
    (1 <= start)%nat ->
    dict_get path_effects (start - 1) = Ok prev ->
    labelled_like prev path ->
    exists path_effects' terms,
      for_each (series_step path) (seq start n) (path_effects, indirect_paths)
      = Ok (path_effects', fold_left df_add terms indirect_paths) /\
      (forall k, (k < start)%nat ->
         dict_get path_effects' k = dict_get path_effects k) /\
      (forall k, (start <= k < start + n)%nat ->
         exists p c, dict_get path_effects' (k - 1) = Ok p /\
                     dict_get path_effects' k = Ok c /\
                     dot p path = Ok c /\ labelled_like c path) /\
      traverse (dict_get path_effects') (seq start n) = Ok terms.
Proof.
  intros Hsq. induction n as [|n IH];
    intros start pe ind prev Hstart Hprev Hlab.
  - exists pe, []. simpl. repeat split; auto. intros k Hk; lia.
  - destruct (dot_labelled prev path Hsq Hlab) as (cur & Hdot & Hcur).
    destruct (IH (S start) (dict_set pe start cur) (df_add ind cur) cur)
      as (pe' & terms & Hloop & Hkeep & Hstep & Hterms).
    + lia.
    + replace (S start - 1)%nat with start by lia. apply dict_get_set_same.
    + exact Hcur.
    + assert (Hat : dict_get pe' start = Ok cur).
      { rewrite Hkeep by lia. apply dict_get_set_same. }
      assert (Hbefore : forall k, (k < start)%nat ->
                                  dict_get pe' k = dict_get pe k).
      { intros k Hk. rewrite Hkeep by lia. apply dict_get_set_other. lia. }
      exists pe', (cur :: terms). repeat split.
      * cbn [seq for_each]. unfold series_step at 1.
        rewrite Hprev. cbn [bind]. rewrite Hdot. cbn [bind]. exact Hloop.
      * exact Hbefore.
      * intros k Hk. destruct (Nat.eq_dec k start) as [->|Hne].
        -- exists prev, cur. rewrite Hbefore by lia. auto.
        -- apply Hstep. lia.
      * cbn [seq traverse]. rewrite Hat. cbn [bind]. rewrite Hterms.
        reflexivity.
Qed.

(** The loop as run by [power_series]. *)
Lemma power_series_ok (path : DataFrame Q) :
  square path ->
  exists path_effects terms,
    power_series path
    = Ok (path_effects,
          fold_left df_add terms (df_full 0 (index path) (columns path))) /\
    dict_get path_effects 0 = Ok path /\
    (forall k, (1 <= k < num_lvs path)%nat ->
       exists p c, dict_get path_effects (k - 1) = Ok p /\
                   dict_get path_effects k = Ok c /\
                   dot p path = Ok c /\ labelled_like c path) /\
    traverse (dict_get path_effects) (seq 1 (num_lvs path - 1)) = Ok terms.
Proof.
  intros Hsq. unfold power_series.
  destruct (series_loop path Hsq (num_lvs path - 1) 1 [(0%nat, path)]
              (df_full 0 (index path) (columns path)) path)
    as (pe & terms & Hloop & Hkeep & Hstep & Hterms); auto.
  - split; reflexivity.
  - exists pe, terms.
    split; [exact Hloop|].
    split; [rewrite Hkeep by lia; reflexivity|].
    split; [intros k Hk; apply Hstep; lia | exact Hterms].
Qed.

(** ** The rows of the effects table *)

Lemma fold_df_add_labels (terms : list (DataFrame Q)) (acc : DataFrame Q) :
  index (fold_left df_add terms acc) = index acc /\
  columns (fold_left df_add terms acc) = columns acc.
Proof.
  revert acc. induction terms as [|t terms IH]; intros acc; simpl; auto.
  destruct (IH (df_add acc t)) as [Hi Hc]. now rewrite Hi, Hc.
Qed.

(** On a square table lines 34-49 raise nothing, and the two matrices have
    the axes of [path]. *)
Lemma effect_paths_ok (path : DataFrame Q) :
  square path ->
  exists indirect_paths total_paths,
    effect_paths path = Ok (indirect_paths, total_paths) /\
    labelled_like indirect_paths path /\ labelled_like total_paths path.
Proof.
  intros Hsq. unfold effect_paths.
  destruct (num_lvs path =? 2)%nat.
  - eexists _, _. split; [reflexivity|]. split; split; reflexivity.
  - destruct (power_series_ok path Hsq) as (pe & terms & Hps & _).
    unfold general_paths. rewrite Hps. cbn [bind snd].
    eexists _, _. split; [reflexivity|].
    destruct (fold_df_add_labels terms (df_full 0 (index path) (columns path)))
      as [Hi Hc].
    split; split; simpl; auto.
Qed.

Lemma effect_pair_spec (path indirect_paths total_paths : DataFrame Q)
    (from_lv to_lv : label) (acc : list EffectRow) :
  square path ->
  labelled_like indirect_paths path -> labelled_like total_paths path ->
  In from_lv (columns path) -> In to_lv (columns path) ->
  effect_pair path indirect_paths total_paths from_lv acc to_lv
  = Ok (acc ++ pair_rows path indirect_paths total_paths from_lv to_lv).
Proof.
  intros (_ & _ & Hsame) [Hii Hic] [Hti Htc] Hf Ht.
  assert (Hrow : label_in to_lv (index path) = true)
    by (apply label_in_iff, Hsame, Ht).
  assert (Hcol : label_in from_lv (columns path) = true)
    by (apply label_in_iff, Hf).
  unfold effect_pair, pair_rows, has_effect, loc.
  rewrite Hii, Hic, Hti, Htc, Hrow, Hcol. cbn [andb bind].
  destruct (negb (from_lv =? to_lv)%string); cbn [andb].
  - destruct (negb (Qeq_bool (cell total_paths to_lv from_lv) 0));
      [reflexivity | now rewrite app_nil_r].
  - now rewrite app_nil_r.
Qed.

Lemma effect_rows_spec (path indirect_paths total_paths : DataFrame Q) :
  square path ->
  labelled_like indirect_paths path -> labelled_like total_paths path ->
  effect_rows path indirect_paths total_paths
  = Ok (flat_map
          (fun from_lv =>
             flat_map (pair_rows path indirect_paths total_paths from_lv)
               (columns path))
          (columns path)).
Proof.
  intros Hsq Hi Ht. unfold effect_rows.
  rewrite for_each_emit
    with (emit := fun from_lv =>
                    flat_map (pair_rows path indirect_paths total_paths from_lv)
                      (columns path)); [reflexivity|].
  intros acc from_lv Hf.
  apply for_each_emit. intros acc' to_lv Hto.
  now apply effect_pair_spec.
Qed.

Lemma NoDup_flat_map_keys {A B K} (key : B -> K) (g : A -> list B)
    (l : list A) :
  NoDup l ->
  (forall x, In x l -> NoDup (map key (g x))) ->
  (forall x y b c, In x l -> In y l -> In b (g x) -> In c (g y) ->
                   key b = key c -> x = y) ->
  NoDup (map key (flat_map g l)).
Proof.
  induction 1 as [|x l Hx Hl IH]; intros Hg Hkey; simpl.
  - constructor.
  - rewrite map_app. apply NoDup_app.
    + apply Hg. now left.
    + apply IH.
      * intros; apply Hg; now right.
      * intros y z b c Hy Hz. apply Hkey; now right.
    + intros k Hk Hk'.
      apply in_map_iff in Hk. destruct Hk as (b & <- & Hb).
      apply in_map_iff in Hk'. destruct Hk' as (c & Hbc & Hc).
      apply in_flat_map in Hc. destruct Hc as (y & Hy & Hc).
      assert (y = x).
      { apply (Hkey y x c b); simpl; auto. }
      subst y. contradiction.
Qed.

Lemma in_pair_rows (path indirect_paths total_paths : DataFrame Q)
    (from_lv to_lv : label) (e : EffectRow) :
  In e (pair_rows path indirect_paths total_paths from_lv to_lv) <->
  from_lv <> to_lv /\ ~ cell total_paths to_lv from_lv == 0 /\
  e = effect_of path indirect_paths total_paths from_lv to_lv.
Proof.
  unfold pair_rows, has_effect.
  destruct (String.eqb_spec from_lv to_lv) as [E|E]; cbn [negb andb].
  - split; [intros [] | intros (H & _); contradiction].
  - destruct (Qeq_bool (cell total_paths to_lv from_lv) 0) eqn:Z; cbn [negb].
    + apply Qeq_bool_iff in Z.
      split; [intros [] | intros (_ & H & _); contradiction].
    + assert (~ cell total_paths to_lv from_lv == 0).
      { intros H. apply Qeq_bool_iff in H. congruence. }
      simpl. split.
      * intros [<-|[]]. auto.
      * intros (_ & _ & ->). now left.
Qed.

(** C2. On every (square) path-coefficients matrix the effects table has
    exactly one row for each ordered pair (from, to) of distinct labels whose
    total effect is not 0, the row holds the entries at [to, from] of the
    direct, indirect and total matrices, and there is no other row: in
    particular no row has total effect 0. *)
Theorem effects_table_rows (path : DataFrame Q) :
  square path ->
  exists indirect_paths total_paths rows,
    effect_paths path = Ok (indirect_paths, total_paths) /\
    _effects path = Ok rows /\
    NoDup (map effect_key rows) /\
    (forall from_lv to_lv,
       In from_lv (columns path) -> In to_lv (columns path) ->
       from_lv <> to_lv -> ~ cell total_paths to_lv from_lv == 0 ->
       In (effect_of path indirect_paths total_paths from_lv to_lv) rows) /\
    (forall e, In e rows ->
       In (e_from e) (columns path) /\ In (e_to e) (columns path) /\
       e_from e <> e_to e /\ ~ e_total e == 0 /\
       e_direct e = cell path (e_to e) (e_from e) /\
       e_indirect e = cell indirect_paths (e_to e) (e_from e) /\
       e_total e = cell total_paths (e_to e) (e_from e)).
Proof.
  intros Hsq.
  destruct (effect_paths_ok path Hsq) as (ind & tot & Hpaths & Hind & Htot).
  exists ind, tot. eexists. split; [exact Hpaths|].
  split.
  { unfold _effects. rewrite Hpaths. cbn [bind fst snd].
    now apply effect_rows_spec. }
  destruct Hsq as (Hnd & _ & _).
  split; [|split].
  - apply NoDup_flat_map_keys; auto.
    + intros f _. apply NoDup_flat_map_keys; auto.
      * intros t _. unfold pair_rows. destruct (has_effect tot f t); simpl;
          repeat constructor; auto.
      * intros t t' b c _ _ Hb Hc Hk.
        apply in_pair_rows in Hb, Hc.
        destruct Hb as (_ & _ & ->), Hc as (_ & _ & ->).
        now inversion Hk.
    + intros f f' b c _ _ Hb Hc Hk.
      apply in_flat_map in Hb, Hc.
      destruct Hb as (t & _ & Hb), Hc as (t' & _ & Hc).
      apply in_pair_rows in Hb, Hc.
      destruct Hb as (_ & _ & ->), Hc as (_ & _ & ->).
      now inversion Hk.
  - intros f t Hf Ht Hne Hnz.
    apply in_flat_map. exists f. split; auto.
    apply in_flat_map. exists t. split; auto.
    apply in_pair_rows. auto.
  - intros e He.
    apply in_flat_map in He. destruct He as (f & Hf & He).
    apply in_flat_map in He. destruct He as (t & Ht & He).
    apply in_pair_rows in He. destruct He as (Hne & Hnz & ->). simpl.
    repeat split; auto.
Qed.

(** ** The branch for two latent variables *)

Lemma acyclic_by_rank (path : DataFrame Q) (rank : label -> nat) :
  (forall a b, has_arrow path a b -> (rank a < rank b)%nat) ->
  acyclic path.
Proof.
  intros Hrank l Hl.
  assert (H : forall a b, clos_trans label (has_arrow path) a b ->
                          (rank a < rank b)%nat).
  { induction 1 as [a b Hab | a b c _ IH1 _ IH2]; [auto | lia]. }
  apply H in Hl. lia.
Qed.

Lemma acyclic_no_two_cycle (path : DataFrame Q) (a b : label) :
  acyclic path -> In a (columns path) -> In b (columns path) ->
  cell path a b * cell path b a == 0.
Proof.
  intros Hacyc Ha Hb.
  destruct (Qeq_dec (cell path a b) 0) as [E|Hab]; [rewrite E; ring|].
  destruct (Qeq_dec (cell path b a) 0) as [E|Hba]; [rewrite E; ring|].
  exfalso. apply (Hacyc a).
  apply t_trans with b; apply t_step; repeat split; auto.
Qed.

Lemma two_labels (ls : list label) (a b k : label) :
  NoDup ls -> List.length ls = 2%nat ->
  In a ls -> In b ls -> In k ls -> a <> b -> k = a \/ k = b.
Proof.
  intros Hnd Hlen Ha Hb Hk Hab.
  destruct ls as [|x [|y [|z ls]]]; try discriminate.
  simpl in *. intuition congruence.
Qed.

Lemma traverse_singleton {A B} (f : A -> result B) (x : A) (ys : list B) :
  traverse f [x] = Ok ys -> exists y, f x = Ok y /\ ys = [y].
Proof.
  simpl. destruct (f x) as [y|e]; simpl; [|discriminate].
  intros H. inversion H. eauto.
Qed.

(** C8. On an acyclic 2x2 path-coefficients matrix with a zero diagonal, the
    branch [num_lvs == 2] (indirect = 0, total = path) and the general loop
    run with [num_lvs = 2] give the same matrices: the direct one is [path]
    in both, and the indirect and total ones have the same axes and equal
    entries. *)
Theorem two_variables_branch (path : DataFrame Q) :
  square path -> num_lvs path = 2%nat ->
  acyclic path -> zero_diagonal path ->
  exists indirect_paths total_paths indirect_paths' total_paths',
    effect_paths path = Ok (indirect_paths, total_paths) /\
    general_paths path = Ok (indirect_paths', total_paths') /\
    labelled_like indirect_paths indirect_paths' /\
    labelled_like total_paths total_paths' /\
    forall r c, In r (index path) -> In c (columns path) ->
      cell indirect_paths r c == cell indirect_paths' r c /\
      cell total_paths r c == cell total_paths' r c.
Proof.
  intros Hsq Hn Hacyc Hdiag.
  destruct (power_series_ok path Hsq)
    as (pe & terms & Hps & H0 & Hstep & Hterms).
  rewrite Hn in Hstep, Hterms. cbn [Nat.sub seq] in Hterms.
  apply traverse_singleton in Hterms. destruct Hterms as (sq & Hsq1 & ->).
  destruct (Hstep 1%nat) as (p & c & Hp & Hc & Hdot & _); [lia|].
  cbn [Nat.sub] in Hp. rewrite H0 in Hp. inversion Hp; subst p; clear Hp.
  rewrite Hsq1 in Hc. inversion Hc; subst c; clear Hc.
  destruct (dot_aligned path path Hsq) as (common & Hperm & Hdot').
  rewrite Hdot in Hdot'. inversion Hdot'; subst sq; clear Hdot'.
  cbn [fold_left] in Hps.
  eexists _, _, _, _.
  split. { unfold effect_paths. rewrite Hn. reflexivity. }
  split. { unfold general_paths. rewrite Hps. reflexivity. }
  split; [split; reflexivity|]. split; [split; reflexivity|].
  intros r c Hr Hcol. cbn [fst snd df_add df_full cell].
  destruct Hsq as (Hnd & _ & Hsame).
  apply Hsame in Hr.
  assert (Hz : Qsum (map (fun k => cell path r k * cell path k c) common) == 0).
  { apply Qsum_zero. intros x Hx.
    apply in_map_iff in Hx. destruct Hx as (k & <- & Hk).
    apply (Permutation_in _ Hperm) in Hk.
    destruct (string_dec r c) as [->|Hrc].
    - now apply acyclic_no_two_cycle.
    - destruct (two_labels _ r c k Hnd Hn Hr Hcol Hk Hrc) as [->| ->].
      + rewrite (Hdiag r Hr). ring.
      + rewrite (Hdiag c Hcol). ring. }
  rewrite Hz. split; ring.
Qed.

(** ** A matrix of zeros has no effects *)

Lemma dot_all_zero (a b c : DataFrame Q) :
  dot a b = Ok c -> all_zero a -> all_zero c.
Proof.
  unfold dot. destruct (_ || _); [discriminate|].
  intros H Ha r k. inversion H; subst c; clear H. simpl.
  apply Qsum_zero. intros x Hx.
  apply in_map_iff in Hx. destruct Hx as (j & <- & _).
  rewrite (Ha r j). ring.
Qed.

Lemma traverse_in {A B} (f : A -> result B) (xs : list A) (ys : list B) :
  traverse f xs = Ok ys ->
  forall y, In y ys -> exists x, In x xs /\ f x = Ok y.
Proof.
  revert ys. induction xs as [|x xs IH]; intros ys H y Hy; simpl in H.
  - inversion H; subst. destruct Hy.
  - apply bind_ok in H. destruct H as (y0 & Hy0 & H).
    apply bind_ok in H. destruct H as (ys0 & Hys0 & H).
    inversion H; subst ys; clear H.
    destruct Hy as [<-|Hy].
    + exists x. split; auto. now left.
    + destruct (IH ys0 Hys0 y Hy) as (x' & Hx' & E).
      exists x'. split; auto. now right.
Qed.

Lemma fold_df_add_zero (terms : list (DataFrame Q)) (acc : DataFrame Q) :
  (forall t, In t terms -> all_zero t) ->
  forall r c, cell (fold_left df_add terms acc) r c == cell acc r c.
Proof.
  revert acc. induction terms as [|t terms IH]; intros acc H r c; simpl.
  - reflexivity.
  - rewrite IH by (intros; apply H; now right). simpl.
    rewrite (H t (or_introl eq_refl) r c). ring.
Qed.

Lemma effect_paths_zero (path indirect_paths total_paths : DataFrame Q) :
  square path -> all_zero path ->
  effect_paths path = Ok (indirect_paths, total_paths) ->
  all_zero indirect_paths /\ all_zero total_paths.
Proof.
  intros Hsq Hzero. unfold effect_paths.
  destruct (num_lvs path =? 2)%nat.
  - intros H. inversion H; subst. split; auto. intros r c. reflexivity.
  - destruct (power_series_ok path Hsq)
      as (pe & terms & Hps & H0 & Hstep & Hterms).
    unfold general_paths. rewrite Hps. cbn [bind snd].
    intros H. inversion H; subst; clear H.
    assert (Hpe : forall k, (k < num_lvs path)%nat ->
                            forall p, dict_get pe k = Ok p -> all_zero p).
    { induction k as [|k IH]; intros Hk p Hp.
      - rewrite H0 in Hp. now inversion Hp; subst.
      - destruct (Hstep (S k)) as (q & c & Hq & Hc & Hdot & _); [lia|].
        replace (S k - 1)%nat with k in Hq by lia.
        rewrite Hp in Hc. inversion Hc; subst c.
        apply (dot_all_zero _ _ _ Hdot). apply IH; [lia | exact Hq]. }
    assert (Hind : all_zero
                     (fold_left df_add terms
                        (df_full 0 (index path) (columns path)))).
    { intros r c. rewrite fold_df_add_zero; [reflexivity|].
      intros t Ht. destruct (traverse_in _ _ _ Hterms t Ht) as (k & Hk & E).
      apply in_seq in Hk. apply (Hpe k); [lia | exact E]. }
    split; auto.
    intros r c. simpl. rewrite (Hzero r c), (Hind r c). ring.
Qed.

Lemma flat_map_nil {A B} (f : A -> list B) (xs : list A) :
  (forall x, In x xs -> f x = []) -> flat_map f xs = [].
Proof.
  induction xs as [|x xs IH]; intros H; simpl; auto.
  rewrite (H x) by now left. apply IH. intros; apply H; now right.
Qed.

Lemma effects_zero (path : DataFrame Q) :
  square path -> all_zero path -> _effects path = Ok [].
Proof.
  intros Hsq Hzero.
  destruct (effect_paths_ok path Hsq) as (ind & tot & Hpaths & Hind & Htot).
  destruct (effect_paths_zero _ _ _ Hsq Hzero Hpaths) as (_ & Hz).
  unfold _effects. rewrite Hpaths. cbn [bind fst snd].
  rewrite effect_rows_spec by auto. f_equal.
  apply flat_map_nil. intros f _. apply flat_map_nil. intros t _.
  unfold pair_rows, has_effect.
  assert (E : Qeq_bool (cell tot t f) 0 = true) by (apply Qeq_bool_iff, Hz).
  rewrite E. now rewrite andb_false_r.
Qed.

(** ** The regressions of [InnerModel.__init__] *)

Section InnerProperties.

Variable ols_solver : list Q -> list (list Q) -> option (list Estimate).

Local Abbreviation init := (InnerModel_init ols_solver).
Local Abbreviation fit := (fit_one ols_solver).

(** What a turn of the loop of line 74 leaves behind. *)
Lemma fit_one_ok (path : DataFrame Z) (scores : Table) (st st' : Fitting)
    (dv : label) :
  fit path scores st dv = Ok st' ->
  exists regression rows,
    regress ols_solver path scores dv = Ok regression /\
    _summary dv regression = Ok rows /\
    st' = mkFitting
            (concat_summaries (f_summaries st) rows)
            (series_set (f_r_squared st) dv (rsquared regression))
            (series_set (f_r_squared_adj st) dv
               (adjusted (rsquared regression) (nrows scores)
                  (row_sum path dv)))
            (set_row (f_path_coefficients st) dv (predictors path dv)
               regression).
Proof.
  unfold fit_one. intros H.
  apply bind_ok in H. destruct H as (regression & Hreg & H).
  apply bind_ok in H. destruct H as (aligned & _ & H).
  apply bind_ok in H. destruct H as (rows & Hrows & H).
  inversion H. exists regression, rows. auto.
Qed.

(** The loop never touches the axes of the tables it fills. *)
Lemma fit_loop_labels (path : DataFrame Z) (scores : Table)
    (dvs : list label) (st st' : Fitting) :
  for_each (fit path scores) dvs st = Ok st' ->
  labelled_like (f_path_coefficients st') (f_path_coefficients st) /\
  s_index (f_r_squared st') = s_index (f_r_squared st) /\
  s_index (f_r_squared_adj st') = s_index (f_r_squared_adj st).
Proof.
  revert st. induction dvs as [|dv dvs IH]; intros st H; simpl in H.
  - inversion H. repeat split.
  - apply bind_ok in H. destruct H as (st1 & H1 & H).
    apply fit_one_ok in H1. destruct H1 as (reg & rows & _ & _ & ->).
    apply IH in H. destruct H as ((Hi & Hc) & Hr & Ha). simpl in *.
    repeat split; auto.
Qed.

(** Line 83, and the attributes as the loop left them. *)
Lemma init_ok (path : DataFrame Z) (scores : Table) (m : InnerModel) :
  init path scores = Ok m ->
  exists st eff,
    for_each (fit path scores) (endogenous_of path) (initial path) = Ok st /\
    _effects (f_path_coefficients st) = Ok eff /\
    m = mkInnerModel (f_summaries st) (f_r_squared st) (f_r_squared_adj st)
          (f_path_coefficients st) (endogenous_of path) eff.
Proof.
  unfold InnerModel_init. intros H.
  apply bind_ok in H. destruct H as (st & Hst & H).
  apply bind_ok in H. destruct H as (eff & Heff & H).
  inversion H. exists st, eff. auto.
Qed.

Lemma init_labels (path : DataFrame Z) (scores : Table) (m : InnerModel) :
  init path scores = Ok m ->
  labelled_like (path_coefficients m) path /\
  s_index (r_squared m) = index path /\
  s_index (r_squared_adj m) = index path /\
  _effects (path_coefficients m) = Ok (effects m).
Proof.
  intros H. apply init_ok in H. destruct H as (st & eff & Hloop & Heff & ->).
  apply fit_loop_labels in Hloop. simpl in *.
  destruct Hloop as (Hl & Hr & Ha). auto.
Qed.

(** A sum does not depend on the order of its terms. *)
Lemma Qsum_perm (xs ys : list Q) : Permutation xs ys -> Qsum xs == Qsum ys.
Proof.
  induction 1 as [|x xs ys _ IH|x y xs|xs ys zs _ IH1 _ IH2].
  - reflexivity.
  - now rewrite !Qsum_cons, IH.
  - rewrite !Qsum_cons. ring.
  - now rewrite IH1.
Qed.

(** An entry of a product of aligned matrices, as a sum over the columns of
    the left factor. *)
Lemma dot_cell (a b c : DataFrame Q) :
  same_labels (columns a) (index b) ->
  dot a b = Ok c ->
  index c = index a /\ columns c = columns b /\
  forall r k,
    cell c r k == Qsum (map (fun j => cell a r j * cell b j k) (columns a)).
Proof.
  intros Hsame Hdot.
  destruct (dot_aligned a b Hsame) as (common & Hperm & E).
  rewrite Hdot in E. inversion E; subst c; clear E. cbn [index columns cell].
  repeat split. intros r k.
  apply Qsum_perm. now apply Permutation_map.
Qed.

(** An entry of the accumulated sum. *)
Lemma fold_df_add_cell (terms : list (DataFrame Q)) (acc : DataFrame Q)
    (r c : label) :
  cell (fold_left df_add terms acc) r c
  == cell acc r c + Qsum (map (fun t => cell t r c) terms).
Proof.
  revert acc. induction terms as [|t terms IH]; intros acc; cbn [fold_left map].
  - change (Qsum []) with 0. ring.
  - rewrite IH, Qsum_cons. cbn [df_add cell]. ring.
Qed.

(** C1. For a path matrix over more than two latent variables, [_effects]
    runs on the fitted path-coefficients matrix as a matrix power series:
    [path_effects[0]] is the matrix itself; each later [path_effects[k]], up
    to [k = num_lvs - 1], is the matrix product of [path_effects[k-1]] and
    the matrix, entry [r, c] being the sum over [j] of
    [path_effects[k-1][r, j] * path[j, c]]; every entry of the indirect
    effects is the sum of that entry over [path_effects[1]] ..
    [path_effects[num_lvs - 1]]; every entry of the total effects is the
    direct entry plus the indirect one; all these matrices have the axes of
    the path matrix, and the rows of the effects table are read off them. *)
Theorem effects_power_series (path : DataFrame Z) (scores : Table)
    (m : InnerModel) :
  square path ->
  (2 < num_lvs path)%nat ->
  init path scores = Ok m ->
  let coefs := path_coefficients m in
  exists path_effects terms indirect_paths total_paths,
    power_series coefs = Ok (path_effects, indirect_paths) /\
    dict_get path_effects 0 = Ok coefs /\
    (forall k, (1 <= k < num_lvs path)%nat ->
       exists p c, dict_get path_effects (k - 1) = Ok p /\
                   dict_get path_effects k = Ok c /\
                   dot p coefs = Ok c /\
                   labelled_like c path /\
                   forall r col,
                     cell c r col
                     == Qsum (map (fun j => cell p r j * cell coefs j col)
                                (columns path))) /\
    traverse (dict_get path_effects) (seq 1 (num_lvs path - 1)) = Ok terms /\
    indirect_paths
    = fold_left df_add terms (df_full 0 (index coefs) (columns coefs)) /\
    labelled_like indirect_paths path /\
    (forall r c,
       cell indirect_paths r c == Qsum (map (fun t => cell t r c) terms)) /\
    total_paths = df_add coefs indirect_paths /\
    labelled_like total_paths path /\
    (forall r c,
       cell total_paths r c == cell coefs r c + cell indirect_paths r c) /\
    effect_paths coefs = Ok (indirect_paths, total_paths) /\
    effect_rows coefs indirect_paths total_paths = Ok (effects m).
Proof.
  intros Hsq Hn Hinit coefs.
  destruct (init_labels _ _ _ Hinit) as ((Hi & Hc) & _ & _ & Heff).
  fold coefs in Hi, Hc, Heff.
  assert (Hsq' : square coefs) by (unfold square; now rewrite Hi, Hc).
  assert (Hnum : num_lvs coefs = num_lvs path)
    by (unfold num_lvs; now rewrite Hc).
  destruct (power_series_ok coefs Hsq')
    as (pe & terms & Hps & H0 & Hstep & Hterms).
  rewrite Hnum in Hstep, Hterms.
  set (zero := df_full 0 (index coefs) (columns coefs)) in *.
  assert (Hpaths : effect_paths coefs
                   = Ok (fold_left df_add terms zero,
                         df_add coefs (fold_left df_add terms zero))).
  { unfold effect_paths. rewrite Hnum.
    destruct (Nat.eqb_spec (num_lvs path) 2) as [E|_]; [lia|].
    unfold general_paths. rewrite Hps. reflexivity. }
  destruct (fold_df_add_labels terms zero) as [Hzi Hzc].
  assert (Hprev : forall k, (k < num_lvs path)%nat ->
            forall p, dict_get pe k = Ok p -> labelled_like p coefs).
  { intros [|k] Hk p Hp.
    - rewrite H0 in Hp. inversion Hp. split; reflexivity.
    - destruct (Hstep (S k)) as (q & c & _ & Hcur & _ & Hlab); [lia|].
      rewrite Hp in Hcur. now inversion Hcur; subst. }
  eexists pe, terms, _, _.
  split; [exact Hps|]. split; [exact H0|].
  split.
  { intros k Hk. destruct (Hstep k Hk) as (p & c & Hp & Hcur & Hd & Hlab).
    exists p, c. split; [exact Hp|]. split; [exact Hcur|].
    split; [exact Hd|].
    destruct (Hprev (k - 1)%nat ltac:(lia) p Hp) as (Hpi & Hpc).
    destruct (dot_cell p coefs c) as (_ & _ & Hcell); auto.
    { now rewrite Hpc. }
    split.
    - destruct Hlab as (Hli & Hlc). split; congruence.
    - intros r col. rewrite Hcell. now rewrite Hpc, Hc. }
  split; [exact Hterms|]. split; [reflexivity|].
  split; [split; cbn [zero df_full index columns] in *; congruence|].
  split.
  { intros r c. rewrite fold_df_add_cell. cbn [zero df_full cell]. ring. }
  split; [reflexivity|].
  split; [split; cbn [df_add index columns]; congruence|].
  split; [intros r c; reflexivity|].
  split; [exact Hpaths|].
  unfold _effects in Heff. rewrite Hpaths in Heff. exact Heff.
Qed.

(** ** What the loop of line 74 stores *)

Lemma fit_loop_untouched (path : DataFrame Z) (scores : Table)
    (dvs : list label) (st st' : Fitting) (dv : label) :
  for_each (fit path scores) dvs st = Ok st' ->
  ~ In dv dvs ->
  s_value (f_r_squared st') dv = s_value (f_r_squared st) dv /\
  s_value (f_r_squared_adj st') dv = s_value (f_r_squared_adj st) dv /\
  (forall c, cell (f_path_coefficients st') dv c
             = cell (f_path_coefficients st) dv c) /\
  (dvs = [] -> f_summaries st' = f_summaries st).
Proof.
  revert st. induction dvs as [|d dvs IH]; intros st H Hn; simpl in H.
  - inversion H. auto.
  - apply bind_ok in H. destruct H as (st1 & H1 & H).
    apply fit_one_ok in H1. destruct H1 as (reg & rows & _ & _ & ->).
    apply IH in H; [|intros Hin; apply Hn; now right].
    destruct H as (Hr & Ha & Hc & _). simpl in *.
    assert (E : (dv =? d)%string = false).
    { apply String.eqb_neq. intros ->. apply Hn. now left. }
    rewrite E in *. simpl in *.
    repeat split; auto. discriminate.
Qed.

Lemma fit_loop_fitted (path : DataFrame Z) (scores : Table)
    (dvs : list label) (st st' : Fitting) (dv : label) :
  NoDup dvs ->
  for_each (fit path scores) dvs st = Ok st' ->
  In dv dvs ->
  exists regression,
    regress ols_solver path scores dv = Ok regression /\
    s_value (f_r_squared st') dv = rsquared regression /\
    s_value (f_r_squared_adj st') dv
    = adjusted (rsquared regression) (nrows scores) (row_sum path dv).
Proof.
  intros Hnd. revert st.
  induction Hnd as [|d dvs Hd Hnd IH]; intros st H Hin; simpl in H.
  - destruct Hin.
  - apply bind_ok in H. destruct H as (st1 & H1 & H).
    apply fit_one_ok in H1. destruct H1 as (reg & rows & Hreg & _ & ->).
    destruct Hin as [->|Hin].
    + exists reg. split; auto.
      destruct (fit_loop_untouched _ _ _ _ _ dv H Hd) as (Hr & Ha & _).
      rewrite Hr, Ha. simpl. now rewrite String.eqb_refl.
    + now apply (IH _ H).
Qed.

Lemma fold_Zadd_shift (xs : list Z) (a : Z) :
  fold_left Z.add xs a = (a + Zsum xs)%Z.
Proof.
  unfold Zsum. revert a.
  induction xs as [|x xs IH]; intros a; simpl; [lia|].
  rewrite IH, (IH x). lia.
Qed.

(** In a 0/1 matrix the row sum of line 81 is the number of predictors. *)
Lemma row_sum_predictors (path : DataFrame Z) (dv : label) :
  binary path -> In dv (index path) ->
  row_sum path dv = Z.of_nat (List.length (predictors path dv)).
Proof.
  intros Hbin Hdv. unfold row_sum, predictors.
  assert (H : forall c, In c (columns path) ->
                        cell path dv c = 0%Z \/ cell path dv c = 1%Z)
    by (intros; now apply Hbin).
  induction (columns path) as [|c cols IH]; [reflexivity|].
  unfold Zsum. cbn [map fold_left filter]. rewrite fold_Zadd_shift.
  rewrite IH by (intros; apply H; now right).
  destruct (H c (or_introl eq_refl)) as [E|E]; rewrite E.
  - change (0 =? 1)%Z with false. lia.
  - change (1 =? 1)%Z with true. cbn [List.length]. lia.
Qed.

Lemma endogenous_spec (path : DataFrame Z) (dv : label) :
  binary path ->
  In dv (endogenous_of path) <->
  In dv (index path) /\ (0 < row_sum path dv)%Z.
Proof.
  intros Hbin. unfold endogenous_of. rewrite filter_In.
  split; intros [Hin H]; split; auto.
  - rewrite row_sum_predictors in * by auto.
    apply negb_true_iff, Z.eqb_neq in H. lia.
  - apply negb_true_iff, Z.eqb_neq. lia.
Qed.

Lemma regress_ok (path : DataFrame Z) (scores : Table) (dv : label)
    (regression : RegressionResults) :
  regress ols_solver path scores dv = Ok regression ->
  exists exog endog,
    table_loc scores (predictors path dv) = Ok exog /\
    column_of (series scores) dv = Ok endog /\
    OLS_fit ols_solver endog (add_constant (nrows scores) exog)
    = Ok regression.
Proof.
  unfold regress. intros H.
  apply bind_ok in H. destruct H as (exog & He & H).
  apply bind_ok in H. destruct H as (endog & Hy & H).
  exists exog, endog. auto.
Qed.

(** C3. For an endogenous latent variable [dv] with [p] predictors, fitted on
    scores of [n] cases with [n - p - 1 <> 0], the stored R-squared is the one
    of the least-squares fit of [scores[dv]] on its predictors and a constant,
    and the stored adjusted R-squared is
    [1 - (1 - R2) * (n - 1) / (n - p - 1)]. *)
Theorem adjusted_r_squared (path : DataFrame Z) (scores : Table)
    (m : InnerModel) (dv : label) :
  NoDup (index path) -> binary path ->
  init path scores = Ok m ->
  In dv (endogenous m) ->
  let n := Z.of_nat (nrows scores) in
  let p := Z.of_nat (List.length (predictors path dv)) in
  (n - p - 1 <> 0)%Z ->
  exists exog endog regression,
    table_loc scores (predictors path dv) = Ok exog /\
    column_of (series scores) dv = Ok endog /\
    OLS_fit ols_solver endog (add_constant (nrows scores) exog)
    = Ok regression /\
    s_value (r_squared m) dv = rsquared regression /\
    s_value (r_squared_adj m) dv
    = 1 - (1 - rsquared regression) * inject_Z (n - 1) / inject_Z (n - p - 1).
Proof.
  intros Hnd Hbin Hinit Hdv n p _.
  apply init_ok in Hinit. destruct Hinit as (st & eff & Hloop & _ & ->).
  simpl in *.
  destruct (fit_loop_fitted _ _ _ _ _ dv (NoDup_filter _ Hnd) Hloop Hdv)
    as (reg & Hreg & Hr & Ha).
  destruct (regress_ok _ _ _ _ Hreg) as (exog & endog & He & Hy & Hfit).
  exists exog, endog, reg. repeat split; auto.
  rewrite Ha. unfold adjusted, n, p.
  rewrite row_sum_predictors; auto.
  apply filter_In in Hdv. tauto.
Qed.

(** ** R-squared and its adjustment *)

Lemma Qsq_nonneg (x : Q) : 0 <= Qsq x.
Proof. unfold Qsq. nra. Qed.

Lemma sum_of_squares_nonneg {A} (f : A -> Q) (xs : list A) :
  0 <= Qsum (map (fun x => Qsq (f x)) xs).
Proof.
  apply Qsum_nonneg. intros y Hy.
  apply in_map_iff in Hy. destruct Hy as (x & <- & _). apply Qsq_nonneg.
Qed.

(** The R-squared of a fit to a response that varies is at most 1. *)
Lemma rsquared_le_1 (endog : list Q) (exog : list (label * list Q))
    (regression : RegressionResults) :
  varies endog ->
  OLS_fit ols_solver endog exog = Ok regression -> rsquared regression <= 1.
Proof.
  intros Hvar.
  unfold OLS_fit. destruct (ols_solver endog (map snd exog)) as [est|];
    [|discriminate].
  destruct (_ =? _)%nat; [|discriminate].
  intros H. inversion H; subst; clear H. simpl.
  assert (Htss : 0 < centered_tss endog).
  { assert (0 <= centered_tss endog)
      by (unfold centered_tss; apply sum_of_squares_nonneg).
    unfold varies in Hvar.
    destruct (Qlt_le_dec 0 (centered_tss endog)) as [Hlt|Hle]; auto.
    exfalso. apply Hvar. now apply Qle_antisym. }
  assert (0 <= ssr endog (map estimate est) (map snd exog)
               / centered_tss endog).
  { apply Qle_shift_div_l; auto.
    assert (0 <= ssr endog (map estimate est) (map snd exog))
      by (unfold ssr; apply sum_of_squares_nonneg).
    lra. }
  lra.
Qed.



(** C5. The latent variables that are regressed (the endogenous list) are
    exactly those whose row of the path matrix has a sum above 0; for every
    other latent variable (row sum 0) the R-squared and the adjusted R-squared
    are 0 and the row of the path-coefficients matrix is all zeros. *)
Theorem exogenous_left_at_zero (path : DataFrame Z) (scores : Table)
    (m : InnerModel) :
  NoDup (index path) -> binary path ->
  init path scores = Ok m ->
  (forall dv, In dv (endogenous m) <->
              In dv (index path) /\ (0 < row_sum path dv)%Z) /\
  (forall dv, In dv (endogenous m) ->
     exists regression,
       regress ols_solver path scores dv = Ok regression /\
       s_value (r_squared m) dv = rsquared regression) /\
  (forall dv, In dv (index path) -> row_sum path dv = 0%Z ->
     s_value (r_squared m) dv = 0 /\
     s_value (r_squared_adj m) dv = 0 /\
     forall c, cell (path_coefficients m) dv c = 0).
Proof.
  intros Hnd Hbin Hinit.
  apply init_ok in Hinit. destruct Hinit as (st & eff & Hloop & _ & ->).
  simpl. split; [|split].
  - intros dv. now apply endogenous_spec.
  - intros dv Hdv.
    destruct (fit_loop_fitted _ _ _ _ _ dv (NoDup_filter _ Hnd) Hloop Hdv)
      as (reg & Hreg & Hr & _).
    exists reg. auto.
  - intros dv Hdv Hsum.
    destruct (fit_loop_untouched _ _ _ _ _ dv Hloop) as (Hr & Ha & Hc & _).
    + intros Hin. apply endogenous_spec in Hin; auto. lia.
    + rewrite Hr, Ha. repeat split; auto.
Qed.

(** C10. When every row of the (square) path matrix sums to zero, the
    construction succeeds; [inner_model()] then raises (the summary table is
    still [None]), while the other accessors return their tables: zeros on
    the axes of [path], no effect row, no endogenous variable. *)
Theorem no_endogenous_variable (path : DataFrame Z) (scores : Table) :
  square path ->
  (forall dv, In dv (index path) -> row_sum path dv = 0%Z) ->
  exists m,
    init path scores = Ok m /\
    inner_model m = Err AttributeError /\
    path_coefficients m = df_full 0 (index path) (columns path) /\
    r_squared m = series_full 0 (index path) /\
    r_squared_adj m = series_full 0 (index path) /\
    effects m = [] /\
    endogenous m = [].
Proof.
  intros Hsq Hsum.
  assert (Hendo : endogenous_of path = []).
  { apply filter_none. intros dv Hdv. rewrite (Hsum dv Hdv). reflexivity. }
  assert (Heff : _effects (df_full 0 (index path) (columns path)) = Ok []).
  { apply effects_zero; [exact Hsq | intros r c; reflexivity]. }
  eexists. split.
  - unfold InnerModel_init. rewrite Hendo. cbn [for_each bind initial
      f_path_coefficients]. rewrite Heff. cbn [bind]. reflexivity.
  - simpl. repeat split; reflexivity.
Qed.

(** ** Labels that the regressions do not find *)

Lemma column_of_missing (cols : list (label * list Q)) (name : label) :
  ~ In name (map fst cols) -> column_of cols name = Err KeyError.
Proof.
  induction cols as [|[l xs] cols IH]; intros H; simpl; auto.
  destruct (String.eqb_spec l name) as [->|Hne].
  - exfalso. apply H. now left.
  - apply IH. intros Hin. apply H. now right.
Qed.

Lemma traverse_fails {A B} (f : A -> result B) (xs : list A) (x : A) :
  In x xs -> (exists e, f x = Err e) -> exists e, traverse f xs = Err e.
Proof.
  intros Hin (e & He). induction xs as [|y xs IH]; [destruct Hin|].
  simpl. destruct Hin as [->|Hin].
  - rewrite He. simpl. eauto.
  - destruct (f y); simpl; eauto.
    destruct (IH Hin) as (e' & ->). simpl. eauto.
Qed.

Lemma for_each_fails {S A} (body : S -> A -> result S) (xs : list A) (x : A) :
  In x xs -> (forall s, exists e, body s x = Err e) ->
  forall s, exists e, for_each body xs s = Err e.
Proof.
  intros Hin Hx. induction xs as [|y xs IH]; intros s; [destruct Hin|].
  simpl. destruct Hin as [->|Hin].
  - destruct (Hx s) as (e & ->). simpl. eauto.
  - destruct (body s y) as [s'|e]; simpl; eauto.
Qed.

Lemma regress_missing (path : DataFrame Z) (scores : Table) (dv : label) :
  ~ In dv (table_columns scores) \/
  (exists iv, In iv (predictors path dv) /\ ~ In iv (table_columns scores)) ->
  exists e, regress ols_solver path scores dv = Err e.
Proof.
  unfold regress. intros [Hdv | (iv & Hiv & Hmiss)].
  - destruct (table_loc scores (predictors path dv)); simpl; eauto.
    rewrite column_of_missing by exact Hdv. simpl. eauto.
  - destruct (traverse_fails
                (fun l => xs <- column_of (series scores) l ;; Ok (l, xs))
                (predictors path dv) iv Hiv) as (e & He).
    + rewrite column_of_missing by exact Hmiss. simpl. eauto.
    + unfold table_loc. rewrite He. simpl. eauto.
Qed.

(** A latent variable that is regressed, or one of its predictors, without a
    column of scores makes the construction fail. *)
Lemma init_missing_scores (path : DataFrame Z) (scores : Table) (dv : label) :
  In dv (endogenous_of path) ->
  ~ In dv (table_columns scores) \/
  (exists iv, In iv (predictors path dv) /\ ~ In iv (table_columns scores)) ->
  exists e, init path scores = Err e.
Proof.
  intros Hdv Hmiss.
  destruct (for_each_fails (fit path scores) (endogenous_of path) dv Hdv)
    with (s := initial path) as (e & He).
  - intros s. unfold fit_one.
    destruct (regress_missing path scores dv Hmiss) as (e & ->).
    simpl. eauto.
  - unfold InnerModel_init. rewrite He. simpl. eauto.
Qed.

(** ** Columns of scores that are not read *)

Lemma for_each_ext {S A} (body body' : S -> A -> result S) (xs : list A) :
  (forall s x, In x xs -> body s x = body' s x) ->
  forall s, for_each body xs s = for_each body' xs s.
Proof.
  induction xs as [|x xs IH]; intros H s; simpl; auto.
  rewrite (H s x) by now left.
  destruct (body' s x); simpl; auto.
  apply IH. intros; apply H; now right.
Qed.

Lemma traverse_ext {A B} (f g : A -> result B) (xs : list A) :
  (forall x, In x xs -> f x = g x) -> traverse f xs = traverse g xs.
Proof.
  induction xs as [|x xs IH]; intros H; simpl; auto.
  rewrite (H x) by now left.
  rewrite IH by (intros; apply H; now right). reflexivity.
Qed.

(** The construction sees the scores only through the number of cases and
    the columns of the regressed variables and of their predictors. *)
Lemma init_reads (path : DataFrame Z) (scores scores' : Table) :
  nrows scores = nrows scores' ->
  (forall dv, In dv (endogenous_of path) ->
     column_of (series scores) dv = column_of (series scores') dv /\
     forall iv, In iv (predictors path dv) ->
       column_of (series scores) iv = column_of (series scores') iv) ->
  init path scores = init path scores'.
Proof.
  intros Hn Hcols. unfold InnerModel_init.
  rewrite (for_each_ext (fit path scores) (fit path scores')); auto.
  intros st dv Hdv. destruct (Hcols dv Hdv) as (Hy & Hx).
  unfold fit_one, regress, table_loc.
  rewrite (traverse_ext _
             (fun l => xs <- column_of (series scores') l ;; Ok (l, xs)))
    by (intros iv Hiv; now rewrite (Hx iv Hiv)).
  now rewrite Hy, Hn.
Qed.

End InnerProperties.

(** ** Unions of indexes *)

Lemma in_index_union (a b : list label) (l : label) :
  In l (index_union a b) <-> In l a \/ In l b.
Proof.
  unfold index_union, labels_eqb.
  destruct (list_eq_dec string_dec a b) as [->|_]; [tauto|].
  destruct a as [|x a]; [destruct b; simpl; tauto|].
  destruct b as [|y b]; [simpl; tauto|].
  set (a' := x :: a). set (b' := y :: b).
  split.
  - intros H. apply (Permutation_in _ (sort_labels_perm _)) in H.
    apply in_app_or in H. destruct H as [H|H]; auto.
    apply filter_In in H. tauto.
  - intros H.
    apply (Permutation_in _ (Permutation_sym (sort_labels_perm _))).
    apply in_or_app.
    destruct (in_dec string_dec l a') as [Ha|Ha]; auto.
    right. apply filter_In. split; [tauto|].
    apply negb_true_iff, label_in_false, Ha.
Qed.

Lemma NoDup_index_union (a b : list label) :
  NoDup a -> NoDup b -> NoDup (index_union a b).
Proof.
  intros Ha Hb. unfold index_union. destruct (labels_eqb a b); auto.
  destruct a as [|x a]; [destruct b; auto|].
  destruct b as [|y b]; auto.
  apply (Permutation_NoDup (Permutation_sym (sort_labels_perm _))).
  apply NoDup_app; auto.
  - now apply NoDup_filter.
  - intros l Hl Hl'. apply filter_In in Hl'. destruct Hl' as (_ & Hl').
    apply negb_true_iff, label_in_false in Hl'. contradiction.
Qed.

Lemma filter_length_zero {A} (f : A -> bool) (xs : list A) :
  List.length (filter f xs) = 0%nat -> forall x, In x xs -> f x = false.
Proof.
  induction xs as [|y xs IH]; intros H x Hx; [destruct Hx|].
  simpl in H. destruct (f y) eqn:E; [discriminate|].
  destruct Hx as [->|Hx]; auto.
Qed.

(** [dot] raises nothing only when the two axes carry the same labels. *)
Lemma dot_ok_aligned (a b c : DataFrame Q) :
  NoDup (columns a) -> NoDup (index b) ->
  dot a b = Ok c -> same_labels (columns a) (index b).
Proof.
  intros Ha Hb. unfold dot.
  destruct (_ || _) eqn:E; [discriminate|]. intros _.
  apply orb_false_iff in E. destruct E as [E1 E2].
  apply Nat.ltb_ge in E1, E2.
  split; [exact Ha|]. split; [exact Hb|].
  unfold index_union, labels_eqb in E1, E2.
  destruct (list_eq_dec string_dec (columns a) (index b)) as [->|_]; [tauto|].
  destruct (columns a) as [|x xs] eqn:Ea;
    [destruct (index b); [tauto | simpl in E1; lia]|].
  destruct (index b) as [|y ys] eqn:Eb; [simpl in E2; lia|].
  rewrite <- Ea, <- Eb in *. clear Ea Eb x xs y ys.
  rewrite (Permutation_length (sort_labels_perm _)), length_app in E1, E2.
  assert (Hsub : incl (index b) (columns a)).
  { intros l Hl.
    assert (F : negb (label_in l (columns a)) = false).
    { apply (filter_length_zero
               (fun l => negb (label_in l (columns a))) (index b));
        [lia | exact Hl]. }
    apply negb_false_iff, label_in_iff in F. exact F. }
  intros l. split; [|apply Hsub].
  apply (NoDup_length_incl Hb); [lia | exact Hsub].
Qed.

Lemma dot_error (a b : DataFrame Q) (e : exn) :
  dot a b = Err e -> e = ValueError.
Proof.
  unfold dot. destruct (_ || _); intros H; inversion H. reflexivity.
Qed.

(** ** Sums with a single term *)

Lemma Qsum_single {A} (f : A -> Q) (xs : list A) (j : A) :
  NoDup xs -> In j xs ->
  (forall k, In k xs -> k <> j -> f k == 0) ->
  Qsum (map f xs) == f j.
Proof.
  induction 1 as [|x xs Hx Hnd IH]; intros Hj Hz; [destruct Hj|].
  cbn [map]. rewrite Qsum_cons. destruct Hj as [->|Hj].
  - rewrite Qsum_zero; [ring|].
    intros y Hy. apply in_map_iff in Hy. destruct Hy as (k & <- & Hk).
    apply Hz; [now right | intros ->; contradiction].
  - rewrite IH; auto.
    + rewrite (Hz x); [ring | now left | intros ->; contradiction].
    + intros k Hk. apply Hz. now right.
Qed.

Lemma Qsum_map_ext {A} (f g : A -> Q) (xs : list A) :
  (forall x, In x xs -> f x == g x) -> Qsum (map f xs) == Qsum (map g xs).
Proof.
  induction xs as [|x xs IH]; intros H; [reflexivity|].
  cbn [map]. rewrite !Qsum_cons, IH, (H x); try reflexivity.
  - now left.
  - intros; apply H; now right.
Qed.

(** Among the values present in a row, at most one is not zero, and it lies
    in [-1, 1]: so does the sum. *)
Lemma sum_present_single (g : label -> option Q) (ls : list label) :
  NoDup ls ->
  (forall k k' v v', In k ls -> In k' ls -> g k = Some v -> g k' = Some v' ->
                     ~ v == 0 -> ~ v' == 0 -> k = k') ->
  (forall k v, In k ls -> g k = Some v -> -1 <= v <= 1) ->
  Qsum (present_values (map g ls)) == 0 \/
  exists k v, In k ls /\ g k = Some v /\ Qsum (present_values (map g ls)) == v.
Proof.
  induction 1 as [|x ls Hx Hnd IH]; intros Huniq Hbound; [left; reflexivity|].
  assert (IH' := IH (fun k k' v v' Hk Hk' => Huniq k k' v v'
                       (or_intror Hk) (or_intror Hk'))
                    (fun k v Hk => Hbound k v (or_intror Hk))).
  clear IH. cbn [map].
  destruct (g x) as [v|] eqn:Gx.
  - change (present_values (Some v :: map g ls))
      with (v :: present_values (map g ls)).
    pose proof (Qsum_cons v (present_values (map g ls))) as Hc.
    destruct (Qeq_dec v 0) as [Hv|Hv].
    + destruct IH' as [Hz | (k & w & Hk & Gk & Hs)].
      * left. rewrite Hc, Hz, Hv. ring.
      * right. exists k, w. split; [now right|]. split; auto.
        rewrite Hc, Hs, Hv. ring.
    + right. exists x, v. split; [now left|]. split; auto.
      rewrite Hc.
      destruct IH' as [Hz | (k & w & Hk & Gk & Hs)].
      * rewrite Hz. ring.
      * rewrite Hs.
        destruct (Qeq_dec w 0) as [Hw|Hw]; [rewrite Hw; ring|].
        exfalso. apply Hx.
        rewrite (Huniq x k v w); auto; [now left | now right].
  - change (present_values (None :: map g ls))
      with (present_values (map g ls)).
    destruct IH' as [Hz | (k & w & Hk & Gk & Hs)]; [now left|].
    right. exists k, w. split; [now right|]. auto.
Qed.

(** ** The outer model *)

Section OuterProperties.

Variable corr : list Q -> list Q -> option Q.

Local Abbreviation outer := (OuterModel_init corr).

Lemma outer_ok (data y : Table) (weights : DataFrame Q) (odm : DataFrame Z)
    (r_squared : Series Q) (m : OuterModel) :
  outer data y weights odm r_squared = Ok m ->
  exists aux,
    r_squared_aux odm r_squared = Ok aux /\
    m = mkOuterModel (cross_loadings corr data y)
          (concat_columns weights
             (loading_of (cross_loadings corr data y) odm)
             (communality_of (loading_of (cross_loadings corr data y) odm))
             (mul_columns
                (communality_of (loading_of (cross_loadings corr data y) odm))
                aux)).
Proof.
  unfold OuterModel_init. intros H.
  apply bind_ok in H. destruct H as (aux & Haux & H).
  inversion H. exists aux. auto.
Qed.

Lemma mul_aligned_some (cl : DataFrame (option Q)) (odm : DataFrame Z)
    (i k : label) (v : Q) :
  cell (mul_aligned cl odm) i k = Some v ->
  exists x, cell cl i k = Some x /\ In i (index odm) /\ In k (columns odm) /\
            v = x * inject_Z (cell odm i k).
Proof.
  unfold mul_aligned. cbn [cell].
  destruct (label_in i (index cl)); cbn [andb]; [|discriminate].
  destruct (label_in k (columns cl)); cbn [andb]; [|discriminate].
  destruct (label_in i (index odm)) eqn:Hi; cbn [andb]; [|discriminate].
  destruct (label_in k (columns odm)) eqn:Hk; [|discriminate].
  destruct (cell cl i k) as [x|]; [|discriminate].
  intros H. inversion H. exists x.
  apply label_in_iff in Hi, Hk. auto.
Qed.

(** With one block per indicator and correlations in [-1, 1], a loading
    lies in [-1, 1]. *)
Lemma loading_bounded (cl : DataFrame (option Q)) (odm : DataFrame Z)
    (i : label) :
  NoDup (columns cl) -> NoDup (columns odm) ->
  (forall r c q, cell cl r c = Some q -> -1 <= q <= 1) ->
  single_block odm ->
  -1 <= s_value (loading_of cl odm) i <= 1.
Proof.
  intros Hcl Hodm Hcorr (Hbin & Hone).
  unfold loading_of, sum_rows. cbn [s_value].
  destruct (sum_present_single (cell (mul_aligned cl odm) i)
              (columns (mul_aligned cl odm))) as [Hz | (k & v & Hk & Gk & Hs)].
  - now apply NoDup_index_union.
  - intros k k' v v' _ _ Gk Gk' Hv Hv'.
    apply mul_aligned_some in Gk, Gk'.
    destruct Gk as (x & _ & Hi & Hk & ->), Gk' as (x' & _ & _ & Hk' & ->).
    apply (Hone i k k'); auto.
    + destruct (Hbin i k Hi Hk) as [E|E]; auto.
      exfalso. apply Hv. rewrite E. ring.
    + destruct (Hbin i k' Hi Hk') as [E|E]; auto.
      exfalso. apply Hv'. rewrite E. ring.
  - intros k v _ Gk. apply mul_aligned_some in Gk.
    destruct Gk as (x & Hx & Hi & Hk & ->).
    pose proof (Hcorr _ _ _ Hx) as Hb.
    destruct (Hbin i k Hi Hk) as [E|E]; rewrite E.
    + change (inject_Z 0) with 0. lra.
    + change (inject_Z 1) with 1. lra.
  - rewrite Hz. lra.
  - rewrite Hs. apply mul_aligned_some in Gk.
    destruct Gk as (x & Hx & Hi & Hk' & ->).
    pose proof (Hcorr _ _ _ Hx) as Hb.
    destruct (Hbin i k Hi Hk') as [E|E]; rewrite E.
    + change (inject_Z 0) with 0. lra.
    + change (inject_Z 1) with 1. lra.
Qed.

Lemma square_in_unit (x : Q) : -1 <= x <= 1 -> 0 <= x ^ 2 <= 1.
Proof. intros H. change (x ^ 2) with (x * x). nra. Qed.

(** The three computed columns of the outer-model table. *)
Lemma concat_loading (weights : DataFrame Q) (loading communality : Series Q)
    (redundancy : Series (option Q)) (i : label) :
  cell (concat_columns weights loading communality redundancy) i "loading"
  = joined (s_index loading) (fun l => Some (s_value loading l)) i.
Proof. reflexivity. Qed.

Lemma concat_communality (weights : DataFrame Q)
    (loading communality : Series Q) (redundancy : Series (option Q))
    (i : label) :
  cell (concat_columns weights loading communality redundancy) i "communality"
  = joined (s_index communality) (fun l => Some (s_value communality l)) i.
Proof. reflexivity. Qed.

Lemma concat_redundancy (weights : DataFrame Q)
    (loading communality : Series Q) (redundancy : Series (option Q))
    (i : label) :
  cell (concat_columns weights loading communality redundancy) i "redundancy"
  = joined (s_index redundancy) (s_value redundancy) i.
Proof. reflexivity. Qed.

(** C7. In the outer-model table the communality of every indicator is the
    square of its loading; and when every cross-loading lies in [-1, 1] and
    every row of the outer design matrix has at most one 1, the rest being 0,
    every communality lies in [0, 1]. *)
Theorem communality_squared_loading (data y : Table) (weights : DataFrame Q)
    (odm : DataFrame Z) (r_squared : Series Q) (m : OuterModel) :
  outer data y weights odm r_squared = Ok m ->
  (forall i, cell (model m) i "communality"
             = option_map (fun x => x ^ 2) (cell (model m) i "loading")) /\
  (NoDup (table_columns y) -> NoDup (columns odm) ->
   (forall i j q, cell (crossloadings m) i j = Some q -> -1 <= q <= 1) ->
   single_block odm ->
   forall i c, cell (model m) i "communality" = Some c -> 0 <= c <= 1).
Proof.
  intros H. apply outer_ok in H. destruct H as (aux & _ & ->).
  cbn [model crossloadings]. split.
  - intros i. rewrite concat_communality, concat_loading.
    unfold joined, communality_of. cbn [s_index s_value].
    destruct (label_in i _); reflexivity.
  - intros Hy Hodm Hcorr Hsingle i c.
    rewrite concat_communality.
    unfold joined, communality_of. cbn [s_index s_value].
    destruct (label_in i _); [|discriminate].
    intros E. inversion E; subst c; clear E.
    apply square_in_unit.
    exact (loading_bounded (cross_loadings corr data y) odm i
             Hy Hodm Hcorr Hsingle).
Qed.

(** The auxiliary of lines 28-29 is the R-squared of the owning latent
    variable. *)
Lemma r_squared_aux_owner (odm : DataFrame Z) (r_squared aux : Series Q)
    (i lv : label) :
  NoDup (columns odm) -> NoDup (s_index r_squared) ->
  r_squared_aux odm r_squared = Ok aux ->
  owner odm i lv ->
  label_in i (s_index aux) = true /\
  s_value aux i == s_value r_squared lv.
Proof.
  intros Hodm Hr2 H (Hi & Hlv & Hone & Hrest).
  unfold r_squared_aux in H.
  apply bind_ok in H. destruct H as (prod & Hdot & H).
  inversion H; subst aux; clear H. cbn [s_index s_value].
  pose proof (dot_ok_aligned (as_float odm) (diag r_squared) prod
                Hodm Hr2 Hdot) as Hsame.
  destruct (dot_aligned _ _ Hsame) as (common & Hperm & Hdot').
  rewrite Hdot in Hdot'. inversion Hdot'; subst prod; clear Hdot' Hdot.
  cbn [index columns cell as_float diag] in *.
  split; [now apply label_in_iff|].
  destruct Hsame as (_ & _ & Hsame).
  assert (Hcell : forall j, In j (s_index r_squared) ->
            Qsum (map (fun k => inject_Z (cell odm i k)
                                * (if (k =? j)%string
                                   then s_value r_squared k else 0)) common)
            == inject_Z (cell odm i j) * s_value r_squared j).
  { intros j Hj.
    rewrite (Qsum_single _ common j).
    - now rewrite String.eqb_refl.
    - apply (Permutation_NoDup (Permutation_sym Hperm) Hodm).
    - apply (Permutation_in _ (Permutation_sym Hperm)), Hsame, Hj.
    - intros k _ Hk. apply String.eqb_neq in Hk. rewrite Hk. ring. }
  rewrite (Qsum_map_ext _ _ _ Hcell).
  rewrite (Qsum_single _ (s_index r_squared) lv); auto.
  - rewrite Hone. change (inject_Z 1) with 1. ring.
  - now apply Hsame.
  - intros k Hk Hne. rewrite (Hrest k); [|now apply Hsame|auto].
    change (inject_Z 0) with 0. ring.
Qed.

(** C6. For an indicator of the outer-model table, the redundancy is its
    communality times the R-squared of the latent variable that owns it in
    the outer design matrix; it is 0 when that R-squared is 0. *)
Theorem redundancy_of_owner (data y : Table) (weights : DataFrame Q)
    (odm : DataFrame Z) (r_squared : Series Q) (m : OuterModel)
    (i lv : label) :
  NoDup (columns odm) -> NoDup (s_index r_squared) ->
  outer data y weights odm r_squared = Ok m ->
  owner odm i lv ->
  exists c r,
    cell (model m) i "communality" = Some c /\
    cell (model m) i "redundancy" = Some r /\
    r == c * s_value r_squared lv /\
    (s_value r_squared lv == 0 -> r == 0).
Proof.
  intros Hodm Hr2 H Hown.
  apply outer_ok in H. destruct H as (aux & Haux & ->).
  destruct (r_squared_aux_owner _ _ _ _ _ Hodm Hr2 Haux Hown) as (Hin & Hval).
  set (cl := cross_loadings corr data y).
  assert (Hload : label_in i (s_index (loading_of cl odm)) = true).
  { apply label_in_iff. unfold loading_of, sum_rows, mul_aligned.
    cbn [s_index index]. apply in_index_union. right. apply Hown. }
  assert (Hred : label_in i (index_union (s_index (loading_of cl odm))
                               (s_index aux)) = true).
  { apply label_in_iff, in_index_union. left. now apply label_in_iff. }
  exists (s_value (loading_of cl odm) i ^ 2),
         (s_value (loading_of cl odm) i ^ 2 * s_value aux i).
  cbn [model]. rewrite concat_communality, concat_redundancy.
  unfold joined, mul_columns, communality_of. cbn [s_index s_value].
  rewrite Hload, Hred, Hin. cbn [andb].
  split; [reflexivity|]. split; [reflexivity|]. split.
  - rewrite Hval. reflexivity.
  - intros Hz. rewrite Hval, Hz. ring.
Qed.

End OuterProperties.

(** ** Mismatched labels *)

Section Alignment.

Variable ols_solver : list Q -> list (list Q) -> option (list Estimate).
Variable corr : list Q -> list Q -> option Q.

(** C9, as the code has it.  On tables with unique labels, a construction
    raises at once for the labels it reads and aligns: [InnerModel] when a
    regressed latent variable, or one of its predictors, has no column of
    scores, the other columns of scores having no part in the result;
    [OuterModel], with a [ValueError], when the columns of the outer design
    matrix and the index of the R-squared series do not carry the same
    labels.  Whenever these two do, [OuterModel] completes, whatever the
    labels of the data, of the weights and of the rows of the outer design
    matrix. *)
Theorem construction_raises_on_labels_read :
  (forall path scores dv,
     In dv (endogenous_of path) ->
     ~ In dv (table_columns scores) \/
     (exists iv, In iv (predictors path dv) /\
                 ~ In iv (table_columns scores)) ->
     exists e, InnerModel_init ols_solver path scores = Err e) /\
  (forall path scores scores',
     NoDup (table_columns scores) -> NoDup (table_columns scores') ->
     nrows scores = nrows scores' ->
     (forall dv, In dv (endogenous_of path) ->
        column_of (series scores) dv = column_of (series scores') dv /\
        forall iv, In iv (predictors path dv) ->
          column_of (series scores) iv = column_of (series scores') iv) ->
     InnerModel_init ols_solver path scores
     = InnerModel_init ols_solver path scores') /\
  (forall data y weights odm r_squared,
     NoDup (table_columns data) -> NoDup (table_columns y) ->
     NoDup (index odm) ->
     NoDup (columns odm) -> NoDup (s_index r_squared) ->
     ~ (forall l, In l (columns odm) <-> In l (s_index r_squared)) ->
     OuterModel_init corr data y weights odm r_squared = Err ValueError) /\
  (forall data y weights odm r_squared,
     NoDup (index weights) -> NoDup (table_columns data) ->
     NoDup (table_columns y) -> NoDup (index odm) ->
     same_labels (columns odm) (s_index r_squared) ->
     exists m, OuterModel_init corr data y weights odm r_squared = Ok m).
Proof.
  split; [|split; [|split]].
  - intros path scores dv. apply init_missing_scores.
  - intros path scores scores' _ _. apply init_reads.
  - intros data y weights odm r2 _ _ _ Hodm Hr2 Hdiff.
    unfold OuterModel_init, r_squared_aux.
    destruct (dot (as_float odm) (diag r2)) as [prod|e] eqn:E.
    + exfalso. apply Hdiff.
      apply (dot_ok_aligned (as_float odm) (diag r2) prod Hodm Hr2 E).
    + apply dot_error in E. subst e. reflexivity.
  - intros data y weights odm r2 _ _ _ _ Hsame.
    unfold OuterModel_init, r_squared_aux.
    destruct (dot_aligned (as_float odm) (diag r2) Hsame) as (common & _ & E).
    rewrite E. cbn [bind]. eauto.
Qed.

End Alignment.

(* ================================================================== *)
(** * The theorems at work *)

Lemma is_ok_true {A} (r : result A) : is_ok r = true -> exists a, r = Ok a.
Proof. destruct r; [eauto | discriminate]. Qed.

Ltac distinct_labels :=
  repeat constructor; simpl; intuition discriminate.

Lemma chain_square : square chain_path.
Proof. split; [|split]; [distinct_labels | distinct_labels | tauto]. Qed.

Lemma chain_binary : binary chain_path.
Proof. intros r c _ _. simpl. destruct (_ || _); auto. Qed.

Lemma chain_fitted :
  InnerModel_init normal_equations chain_path chain_scores = Ok chain_model.
Proof.
  assert (H : is_ok (InnerModel_init normal_equations chain_path chain_scores)
              = true) by (vm_compute; reflexivity).
  unfold chain_model.
  destruct (InnerModel_init normal_equations chain_path chain_scores);
    [reflexivity | discriminate].
Qed.

Lemma chain_coefficients_square : square chain_coefficients.
Proof. split; [|split]; [distinct_labels | distinct_labels | tauto]. Qed.

Lemma arrow_square : square arrow_coefficients.
Proof. split; [|split]; [distinct_labels | distinct_labels | tauto]. Qed.

Lemma arrow_ranked (a b : label) :
  has_arrow arrow_coefficients a b -> (arrow_rank a < arrow_rank b)%nat.
Proof.
  intros (Ha & Hb & Hnz). simpl in Ha, Hb.
  destruct Ha as [<-|[<-|[]]], Hb as [<-|[<-|[]]];
    try (exfalso; apply Hnz; reflexivity).
  vm_compute. lia.
Qed.

Lemma arrow_zero_diagonal : zero_diagonal arrow_coefficients.
Proof. intros l [<-|[<-|[]]]; reflexivity. Qed.

Lemma empty_square : square empty_path.
Proof. split; [|split]; [distinct_labels | distinct_labels | tauto]. Qed.

Lemma block_fitted :
  OuterModel_init pearson block_data block_scores block_weights block_odm
    block_r_squared = Ok block_model.
Proof.
  assert (H : is_ok (OuterModel_init pearson block_data block_scores
                       block_weights block_odm block_r_squared) = true)
    by (vm_compute; reflexivity).
  unfold block_model.
  destruct (OuterModel_init pearson block_data block_scores block_weights
              block_odm block_r_squared); [reflexivity | discriminate].
Qed.

Lemma block_single : single_block block_odm.
Proof.
  split.
  - intros r c _ _. simpl. destruct (_ || _); auto.
  - intros i j k Hi Hj Hk. simpl in Hi, Hj, Hk.
    destruct Hi as [<-|[<-|[<-|[]]]], Hj as [<-|[<-|[]]], Hk as [<-|[<-|[]]];
      vm_compute; congruence.
Qed.

Lemma block_owner : owner block_odm "y1" "Y".
Proof.
  repeat split; simpl; auto.
  intros k [<-|[<-|[]]] Hk; [reflexivity | congruence].
Qed.

Lemma block_correlations (i j : label) (q : Q) :
  cell (crossloadings block_model) i j = Some q -> -1 <= q <= 1.
Proof.
  assert (E : crossloadings block_model
              = cross_loadings pearson block_data block_scores).
  { pose proof block_fitted as H.
    apply outer_ok in H. destruct H as (aux & _ & ->). reflexivity. }
  rewrite E. unfold cross_loadings, block_data, block_scores.
  cbn [cell series column_of].
  destruct (String.eqb "x1" i); [|destruct (String.eqb "x2" i);
    [|destruct (String.eqb "y1" i); [|discriminate]]];
  (destruct (String.eqb "X" j); [|destruct (String.eqb "Y" j);
    [|discriminate]]);
  vm_compute; intros H; inversion H; subst q; split; discriminate.
Qed.

(** The model runs: the chain A -> B -> C on four cases. *)
Example chain_endogenous : endogenous chain_model = ["B"; "C"].
Proof. vm_compute. reflexivity. Qed.

Example chain_r_squared :
  s_value (r_squared chain_model) "B" == 23 # 25 /\
  s_value (r_squared_adj chain_model) "B" == 22 # 25 /\
  cell (path_coefficients chain_model) "B" "A" == 23 # 10.
Proof. repeat split; vm_compute; reflexivity. Qed.

Example chain_summaries :
  option_map (map sm_index) (summaries chain_model)
  = Some ["A -> B"; "B -> C"].
Proof. vm_compute. reflexivity. Qed.

(** In the chain the indirect effect of A on C is the product of the two
    coefficients, and there is no direct one. *)
Example chain_effects :
  _effects chain_coefficients
  = Ok [mkEffect "A -> B" "A" "B" 2 0 2;
        mkEffect "A -> C" "A" "C" 0 6 6;
        mkEffect "B -> C" "B" "C" 3 0 3].
Proof. vm_compute. reflexivity. Qed.

(** With two latent variables and one arrow nothing is indirect. *)
Example arrow_effects :
  _effects arrow_coefficients = Ok [mkEffect "X -> Y" "X" "Y" 2 0 2].
Proof. vm_compute. reflexivity. Qed.

(** The row of y1 in the outer-model table. *)
Example block_row_y1 :
  map (fun c => option_map Qred (cell (model block_model) "y1" c))
    (columns (model block_model))
  = [Some (1 # 2); Some (1 # 2); Some (1 # 4); Some (1 # 16)].
Proof. vm_compute. reflexivity. Qed.

(** A latent variable named const that varies: the fitted parameters carry
    the label const twice and line 78 raises. *)
Example const_predictor_raises :
  InnerModel_init normal_equations const_path const_scores = Err ValueError.
Proof. vm_compute. reflexivity. Qed.

Lemma chain_index_distinct : NoDup (index chain_path).
Proof. distinct_labels. Qed.

Lemma chain_endogenous_B : In "B" (endogenous chain_model).
Proof. vm_compute. left. reflexivity. Qed.

(** The power series behind the effects of the chain A -> B -> C. *)
Lemma effects_power_series_witness :
  square chain_path /\ (2 < num_lvs chain_path)%nat /\
  InnerModel_init normal_equations chain_path chain_scores = Ok chain_model /\
  exists path_effects indirect_paths,
    power_series (path_coefficients chain_model)
    = Ok (path_effects, indirect_paths) /\
    effect_rows (path_coefficients chain_model) indirect_paths
      (df_add (path_coefficients chain_model) indirect_paths)
    = Ok (effects chain_model).
Proof.
  assert (H2 : (2 < num_lvs chain_path)%nat) by (vm_compute; lia).
  split; [exact chain_square|]. split; [exact H2|].
  split; [exact chain_fitted|].
  destruct (effects_power_series normal_equations chain_path chain_scores
              chain_model chain_square H2 chain_fitted)
    as (pe & terms & ind & tot & Hps & _ & _ & _ & _ & _ & _ & -> & _ & _
        & _ & Hrows).
  exists pe, ind. split; assumption.
Defined.

(** The effects table of the chain with coefficients 2 and 3. *)
Lemma effects_table_rows_witness :
  square chain_coefficients /\
  exists rows,
    _effects chain_coefficients = Ok rows /\ NoDup (map effect_key rows).
Proof.
  split; [exact chain_coefficients_square|].
  destruct (effects_table_rows chain_coefficients chain_coefficients_square)
    as (ind & tot & rows & _ & H & Hnd & _).
  exists rows. split; assumption.
Defined.

(** B in the chain: one predictor, four cases. *)
Lemma adjusted_r_squared_witness :
  NoDup (index chain_path) /\ binary chain_path /\
  InnerModel_init normal_equations chain_path chain_scores = Ok chain_model /\
  In "B" (endogenous chain_model) /\
  (4 - 1 - 1 <> 0)%Z /\
  s_value (r_squared_adj chain_model) "B"
  = 1 - (1 - s_value (r_squared chain_model) "B")
        * inject_Z (4 - 1) / inject_Z (4 - 1 - 1).
Proof.
  assert (Hd : (4 - 1 - 1 <> 0)%Z) by (vm_compute; discriminate).
  split; [exact chain_index_distinct|]. split; [exact chain_binary|].
  split; [exact chain_fitted|]. split; [exact chain_endogenous_B|].
  split; [exact Hd|].
  destruct (adjusted_r_squared normal_equations chain_path chain_scores
              chain_model "B" chain_index_distinct chain_binary chain_fitted
              chain_endogenous_B Hd)
    as (exog & endog & reg & _ & _ & _ & Hr & Ha).
  rewrite Hr. exact Ha.
Defined.


(** A in the chain is exogenous. *)
Lemma exogenous_left_at_zero_witness :
  NoDup (index chain_path) /\ binary chain_path /\
  InnerModel_init normal_equations chain_path chain_scores = Ok chain_model /\
  s_value (r_squared chain_model) "A" = 0 /\
  s_value (r_squared_adj chain_model) "A" = 0 /\
  cell (path_coefficients chain_model) "A" "B" = 0.
Proof.
  split; [exact chain_index_distinct|]. split; [exact chain_binary|].
  split; [exact chain_fitted|].
  destruct (exogenous_left_at_zero normal_equations chain_path chain_scores
              chain_model chain_index_distinct chain_binary chain_fitted)
    as (_ & _ & Hexo).
  destruct (Hexo "A") as (Hr & Ha & Hc).
  - simpl. auto.
  - vm_compute. reflexivity.
  - split; [exact Hr|]. split; [exact Ha | exact (Hc "B")].
Defined.

(** The indicator y1, owned by Y. *)
Lemma redundancy_of_owner_witness :
  NoDup (columns block_odm) /\ NoDup (s_index block_r_squared) /\
  OuterModel_init pearson block_data block_scores block_weights block_odm
    block_r_squared = Ok block_model /\
  owner block_odm "y1" "Y" /\
  exists c r,
    cell (model block_model) "y1" "communality" = Some c /\
    cell (model block_model) "y1" "redundancy" = Some r /\
    r == c * s_value block_r_squared "Y" /\
    (s_value block_r_squared "Y" == 0 -> r == 0).
Proof.
  assert (Hodm : NoDup (columns block_odm)) by distinct_labels.
  assert (Hr2 : NoDup (s_index block_r_squared)) by distinct_labels.
  split; [exact Hodm|]. split; [exact Hr2|]. split; [exact block_fitted|].
  split; [exact block_owner|].
  exact (redundancy_of_owner pearson block_data block_scores block_weights
           block_odm block_r_squared block_model "y1" "Y" Hodm Hr2
           block_fitted block_owner).
Defined.

(** The indicator x2, owned by X. *)
Lemma communality_squared_loading_witness :
  OuterModel_init pearson block_data block_scores block_weights block_odm
    block_r_squared = Ok block_model /\
  NoDup (table_columns block_scores) /\ NoDup (columns block_odm) /\
  single_block block_odm /\
  cell (model block_model) "x2" "communality"
  = option_map (fun x => x ^ 2) (cell (model block_model) "x2" "loading") /\
  exists c,
    cell (model block_model) "x2" "communality" = Some c /\ 0 <= c <= 1.
Proof.
  assert (Hy : NoDup (table_columns block_scores)) by distinct_labels.
  assert (Hodm : NoDup (columns block_odm)) by distinct_labels.
  split; [exact block_fitted|]. split; [exact Hy|]. split; [exact Hodm|].
  split; [exact block_single|].
  destruct (communality_squared_loading pearson block_data block_scores
              block_weights block_odm block_r_squared block_model
              block_fitted) as (Hsq & Hunit).
  split; [exact (Hsq "x2")|].
  destruct (cell (model block_model) "x2" "communality") as [c|] eqn:E.
  - exists c. split; [reflexivity|].
    exact (Hunit Hy Hodm block_correlations block_single "x2" c E).
  - vm_compute in E. discriminate.
Defined.

(** The single arrow X -> Y. *)
Lemma two_variables_branch_witness :
  square arrow_coefficients /\ num_lvs arrow_coefficients = 2%nat /\
  acyclic arrow_coefficients /\ zero_diagonal arrow_coefficients /\
  exists indirect_paths total_paths indirect_paths' total_paths',
    effect_paths arrow_coefficients = Ok (indirect_paths, total_paths) /\
    general_paths arrow_coefficients = Ok (indirect_paths', total_paths') /\
    cell indirect_paths "Y" "X" == cell indirect_paths' "Y" "X" /\
    cell total_paths "Y" "X" == cell total_paths' "Y" "X".
Proof.
  assert (Hacyc : acyclic arrow_coefficients)
    by exact (acyclic_by_rank arrow_coefficients arrow_rank arrow_ranked).
  split; [exact arrow_square|]. split; [reflexivity|].
  split; [exact Hacyc|]. split; [exact arrow_zero_diagonal|].
  destruct (two_variables_branch arrow_coefficients arrow_square eq_refl
              Hacyc arrow_zero_diagonal)
    as (ind & tot & ind' & tot' & H1 & H2 & _ & _ & Hcells).
  exists ind, tot, ind', tot'.
  split; [exact H1|]. split; [exact H2|].
  apply Hcells; simpl; auto.
Defined.

(** Scores without the predictor X; scores with a column Z more; an
    R-squared series over X and W; data that miss x2 and bring z1. *)
Lemma construction_raises_on_labels_read_witness :
  (exists e,
     InnerModel_init normal_equations arrow_path short_scores = Err e) /\
  InnerModel_init normal_equations arrow_path wide_scores
  = InnerModel_init normal_equations arrow_path narrow_scores /\
  OuterModel_init pearson other_data block_scores block_weights block_odm
    other_r_squared = Err ValueError /\
  (exists m,
     OuterModel_init pearson other_data block_scores block_weights block_odm
       block_r_squared = Ok m).
Proof.
  destruct (construction_raises_on_labels_read normal_equations pearson)
    as (Hinner & Hreads & Houter & Hdone).
  split; [|split; [|split]].
  - apply (Hinner arrow_path short_scores "Y").
    + vm_compute. left. reflexivity.
    + right. exists "X". split.
      * vm_compute. left. reflexivity.
      * simpl. intuition discriminate.
  - apply Hreads; [distinct_labels | distinct_labels | reflexivity|].
    intros dv Hdv. vm_compute in Hdv. destruct Hdv as [<-|[]].
    split; [reflexivity|].
    intros iv Hiv. vm_compute in Hiv. destruct Hiv as [<-|[]]. reflexivity.
  - apply Houter.
    + distinct_labels.
    + distinct_labels.
    + distinct_labels.
    + distinct_labels.
    + distinct_labels.
    + intros H. destruct (proj1 (H "Y")) as [E|[E|[]]];
        [simpl; auto | discriminate | discriminate].
  - apply Hdone.
    + distinct_labels.
    + distinct_labels.
    + distinct_labels.
    + distinct_labels.
    + split; [|split]; [distinct_labels | distinct_labels | tauto].
Defined.

(** Three latent variables without arrows. *)
Lemma no_endogenous_variable_witness :
  square empty_path /\
  exists m,
    InnerModel_init normal_equations empty_path chain_scores = Ok m /\
    inner_model m = Err AttributeError /\
    effects m = [] /\ endogenous m = [].
Proof.
  split; [exact empty_square|].
  destruct (no_endogenous_variable normal_equations empty_path chain_scores
              empty_square)
    as (m & Hm & Hnone & _ & _ & _ & Heff & Hendo).
  - intros dv _. reflexivity.
  - exists m. repeat split; assumption.
Defined.

(** C9, as the specification words it, fails: tables whose label sets differ
    are accepted.  The scores hold a column Z that the path matrix does not
    know, and [InnerModel] is built; the data lack the indicator x2 of the
    outer design matrix and hold an unknown z1, and [OuterModel] is built. *)
Lemma mismatched_labels_accepted :
  ~ (forall l, In l (columns arrow_path) <-> In l (table_columns wide_scores))
  /\ (exists m,
        InnerModel_init normal_equations arrow_path wide_scores = Ok m)
  /\ ~ (forall l, In l (index block_odm) <-> In l (table_columns other_data))
  /\ (exists m,
        OuterModel_init pearson other_data block_scores block_weights
          block_odm block_r_squared = Ok m).
Proof.
  split; [|split; [|split]].
  - intros H. destruct (proj2 (H "Z")) as [E|[E|[]]];
      [simpl; auto | discriminate | discriminate].
  - apply is_ok_true. vm_compute. reflexivity.
  - intros H. destruct (proj1 (H "x2")) as [E|[E|[E|[]]]];
      [simpl; auto | discriminate | discriminate | discriminate].
  - apply is_ok_true. vm_compute. reflexivity.
Qed.

(* ================================================================== *)
(** * Further properties *)

(** ** Loops and lookups *)

Lemma for_each_invariant {S A} (body : S -> A -> result S) (P : S -> Prop)
    (xs : list A) :
  (forall s x s', In x xs -> P s -> body s x = Ok s' -> P s') ->
  forall s s', P s -> for_each body xs s = Ok s' -> P s'.
Proof.
  induction xs as [|x xs IH]; intros Hbody s s' Hs H; simpl in H.
  - inversion H; subst; auto.
  - apply bind_ok in H. destruct H as (s1 & H1 & H).
    apply (IH (fun s0 y s0' Hy => Hbody s0 y s0' (or_intror Hy)) s1 s'); auto.
    apply (Hbody s x s1); simpl; auto.
Qed.

(** The exceptions of a loop are those of its body. *)
Lemma for_each_error {S A} (body : S -> A -> result S) (P : exn -> Prop)
    (xs : list A) :
  (forall s x e, body s x = Err e -> P e) ->
  forall s e, for_each body xs s = Err e -> P e.
Proof.
  intros Hbody. induction xs as [|x xs IH]; intros s e H; simpl in H.
  - discriminate.
  - destruct (body s x) as [s1|e1] eqn:E; simpl in H.
    + now apply (IH s1).
    + inversion H; subst. now apply (Hbody s x).
Qed.

Lemma loc_ok {V} (df : DataFrame V) (r c : label) (v : V) :
  loc df r c = Ok v ->
  v = cell df r c /\ In r (index df) /\ In c (columns df).
Proof.
  unfold loc.
  destruct (label_in r (index df)) eqn:Hr; cbn [andb]; [|discriminate].
  destruct (label_in c (columns df)) eqn:Hc; [|discriminate].
  intros H. inversion H. apply label_in_iff in Hr, Hc. auto.
Qed.

Lemma loc_error {V} (df : DataFrame V) (r c : label) (e : exn) :
  loc df r c = Err e -> e = KeyError.
Proof.
  unfold loc. destruct (_ && _); intros H; inversion H. reflexivity.
Qed.

Lemma loc_missing_row {V} (df : DataFrame V) (r c : label) :
  ~ In r (index df) -> loc df r c = Err KeyError.
Proof.
  intros H. apply label_in_false in H. unfold loc. now rewrite H.
Qed.

(** ** Rows of the effects table, whatever the axes *)

(** Whatever lines 50-60 append is read off the three matrices, for a pair
    of distinct labels with a total that is not zero. *)
Lemma effect_pair_sound (path indirect_paths total_paths : DataFrame Q)
    (from_lv to_lv : label) (acc acc' : list EffectRow)
    (P : EffectRow -> Prop) :
  (from_lv <> to_lv -> ~ cell total_paths to_lv from_lv == 0 ->
   P (effect_of path indirect_paths total_paths from_lv to_lv)) ->
  Forall P acc ->
  effect_pair path indirect_paths total_paths from_lv acc to_lv = Ok acc' ->
  Forall P acc'.
Proof.
  intros Hnew Hacc. unfold effect_pair.
  destruct (String.eqb_spec from_lv to_lv) as [E|E]; cbn [negb].
  - intros H. inversion H; subst; auto.
  - intros H. apply bind_ok in H. destruct H as (t & Ht & H).
    apply loc_ok in Ht. destruct Ht as (-> & _).
    destruct (Qeq_bool (cell total_paths to_lv from_lv) 0) eqn:Z;
      cbn [negb] in H.
    + inversion H; subst; auto.
    + apply bind_ok in H. destruct H as (d & Hd & H).
      apply bind_ok in H. destruct H as (i & Hi & H).
      apply loc_ok in Hd, Hi. destruct Hd as (-> & _), Hi as (-> & _).
      inversion H; subst acc'; clear H.
      apply Forall_app. split; auto. constructor; [|constructor].
      apply Hnew; auto.
      intros Hz. apply Qeq_bool_iff in Hz. congruence.
Qed.

Lemma effect_rows_sound (path indirect_paths total_paths : DataFrame Q)
    (rows : list EffectRow) (P : EffectRow -> Prop) :
  (forall from_lv to_lv,
     In from_lv (columns path) -> In to_lv (columns path) ->
     from_lv <> to_lv -> ~ cell total_paths to_lv from_lv == 0 ->
     P (effect_of path indirect_paths total_paths from_lv to_lv)) ->
  effect_rows path indirect_paths total_paths = Ok rows ->
  forall e, In e rows -> P e.
Proof.
  intros Hnew H. apply Forall_forall. unfold effect_rows in H.
  apply (for_each_invariant _ (Forall P) _) with (s := []) (s' := rows) in H;
    auto.
  intros acc from_lv acc' Hf Hacc Hin.
  apply (for_each_invariant _ (Forall P) _) with (s := acc) (s' := acc')
    in Hin; auto.
  intros acc1 to_lv acc1' Ht Hacc1 Hpair.
  apply (effect_pair_sound _ _ _ _ _ _ _ P (Hnew from_lv to_lv Hf Ht)
           Hacc1 Hpair).
Qed.

Lemma effect_pair_error (path indirect_paths total_paths : DataFrame Q)
    (from_lv to_lv : label) (acc : list EffectRow) (e : exn) :
  effect_pair path indirect_paths total_paths from_lv acc to_lv = Err e ->
  e = KeyError.
Proof.
  unfold effect_pair. destruct (negb _); [|discriminate].
  destruct (loc total_paths to_lv from_lv) as [t|e1] eqn:E1; cbn [bind].
  - destruct (negb _); [|discriminate].
    destruct (loc path to_lv from_lv) as [d|e2] eqn:E2; cbn [bind].
    + destruct (loc indirect_paths to_lv from_lv) as [i|e3] eqn:E3;
        cbn [bind]; [discriminate|].
      intros H. inversion H; subst. now apply loc_error in E3.
    + intros H. inversion H; subst. now apply loc_error in E2.
  - intros H. inversion H; subst. now apply loc_error in E1.
Qed.

Lemma effect_rows_error (path indirect_paths total_paths : DataFrame Q)
    (e : exn) :
  effect_rows path indirect_paths total_paths = Err e -> e = KeyError.
Proof.
  unfold effect_rows.
  apply (for_each_error _ (fun e => e = KeyError)).
  intros acc from_lv e1.
  apply (for_each_error _ (fun e => e = KeyError)).
  intros acc1 to_lv e2. apply effect_pair_error.
Qed.

Lemma effect_pair_missing (path indirect_paths total_paths : DataFrame Q)
    (from_lv to_lv : label) (acc : list EffectRow) :
  from_lv <> to_lv -> ~ In to_lv (index total_paths) ->
  effect_pair path indirect_paths total_paths from_lv acc to_lv
  = Err KeyError.
Proof.
  intros Hne Hmiss. unfold effect_pair.
  apply String.eqb_neq in Hne. rewrite Hne. cbn [negb].
  now rewrite (loc_missing_row total_paths to_lv from_lv Hmiss).
Qed.

Lemma effects_ok (path : DataFrame Q) (rows : list EffectRow) :
  _effects path = Ok rows ->
  exists indirect_paths total_paths,
    effect_paths path = Ok (indirect_paths, total_paths) /\
    effect_rows path indirect_paths total_paths = Ok rows.
Proof.
  unfold _effects. intros H. apply bind_ok in H.
  destruct H as ((ind & tot) & Hp & H). exists ind, tot. auto.
Qed.

(** X1. In every row of an effects table the total effect is the direct
    effect plus the indirect one. *)
Theorem total_is_direct_plus_indirect (path : DataFrame Q)
    (rows : list EffectRow) :
  _effects path = Ok rows ->
  forall e, In e rows -> e_total e == e_direct e + e_indirect e.
Proof.
  intros H. apply effects_ok in H. destruct H as (ind & tot & Hp & Hrows).
  apply (effect_rows_sound path ind tot rows
           (fun e => e_total e == e_direct e + e_indirect e));
    [|exact Hrows].
  intros f t _ _ _ _. unfold effect_of. cbn [e_total e_direct e_indirect].
  unfold effect_paths in Hp. destruct (num_lvs path =? 2)%nat.
  - inversion Hp; subst. cbn [df_full cell]. ring.
  - unfold general_paths in Hp. apply bind_ok in Hp.
    destruct Hp as (st & _ & Hp). inversion Hp; subst. cbn [df_add cell].
    reflexivity.
Qed.

(** X2. With exactly two latent variables nothing is indirect: every row of
    the effects table has indirect effect 0 and a total equal to the direct
    effect. *)
Theorem two_variables_no_indirect (path : DataFrame Q)
    (rows : list EffectRow) :
  num_lvs path = 2%nat ->
  _effects path = Ok rows ->
  forall e, In e rows -> e_indirect e = 0 /\ e_total e = e_direct e.
Proof.
  intros Hn H. apply effects_ok in H. destruct H as (ind & tot & Hp & Hrows).
  unfold effect_paths in Hp. rewrite Hn in Hp. inversion Hp; subst ind tot.
  apply (effect_rows_sound path (df_full 0 (index path) (columns path))
           path rows
           (fun e => e_indirect e = 0 /\ e_total e = e_direct e));
    [|exact Hrows].
  intros f t _ _ _ _. split; reflexivity.
Qed.

(** X3. With fewer than two latent variables [_effects] raises nothing and
    returns the empty table, whatever the labels. *)
Theorem effects_of_one_variable (path : DataFrame Q) :
  (num_lvs path < 2)%nat -> _effects path = Ok [].
Proof.
  unfold _effects, effect_paths, general_paths, power_series,
    effect_rows, num_lvs.
  destruct (columns path) as [|a [|b cols]]; cbn [List.length]; intros Hn.
  - reflexivity.
  - cbn. unfold effect_pair. rewrite String.eqb_refl. reflexivity.
  - lia.
Qed.

(** X4. With three or more latent variables, a table whose column labels and
    row labels (each unique) are not the same set makes [_effects] raise
    [ValueError]: the first matrix product is not aligned. *)
Theorem effects_not_aligned (path : DataFrame Q) :
  (2 < num_lvs path)%nat ->
  NoDup (columns path) -> NoDup (index path) ->
  ~ (forall l, In l (columns path) <-> In l (index path)) ->
  _effects path = Err ValueError.
Proof.
  intros Hn Hc Hi Hdiff.
  assert (Hdot : dot path path = Err ValueError).
  { destruct (dot path path) as [c|e] eqn:E.
    - exfalso. apply Hdiff. apply (dot_ok_aligned path path c Hc Hi E).
    - apply dot_error in E. now subst. }
  unfold _effects, effect_paths.
  destruct (Nat.eqb_spec (num_lvs path) 2) as [E|_]; [lia|].
  unfold general_paths, power_series.
  destruct (num_lvs path - 1)%nat as [|k] eqn:Ek; [lia|].
  cbn [seq for_each]. unfold series_step at 1.
  cbn [Nat.sub dict_get Nat.eqb bind]. rewrite Hdot. reflexivity.
Qed.

(** X5. With two latent variables of distinct labels, one of which is not a
    row label, and row labels that are unique, [_effects] raises
    [KeyError]. *)
Theorem effects_missing_row (path : DataFrame Q) (a b : label) :
  columns path = [a; b] -> a <> b ->
  NoDup (index path) ->
  ~ In a (index path) \/ ~ In b (index path) ->
  _effects path = Err KeyError.
Proof.
  intros Hcols Hab _ Hmiss.
  unfold _effects, effect_paths, num_lvs. rewrite Hcols.
  cbn [List.length Nat.eqb bind fst snd].
  set (zero := df_full 0 (index path) [a; b]).
  assert (Hfail : exists e, effect_rows path zero path = Err e).
  { unfold effect_rows. rewrite Hcols.
    destruct Hmiss as [Ha|Hb].
    - apply (for_each_fails _ [a; b] b); [simpl; auto|].
      intros acc. apply (for_each_fails _ [a; b] a); [simpl; auto|].
      intros acc1. exists KeyError.
      apply effect_pair_missing; [congruence | exact Ha].
    - apply (for_each_fails _ [a; b] a); [simpl; auto|].
      intros acc. apply (for_each_fails _ [a; b] b); [simpl; auto|].
      intros acc1. exists KeyError.
      apply effect_pair_missing; [exact Hab | exact Hb]. }
  destruct Hfail as (e & He). rewrite He.
  now rewrite (effect_rows_error _ _ _ _ He).
Qed.

(** ** More on the regressions of [InnerModel.__init__] *)

Lemma map_fst_combine {A B} (xs : list A) (ys : list B) :
  List.length ys = List.length xs -> map fst (combine xs ys) = xs.
Proof.
  revert ys. induction xs as [|x xs IH]; intros [|y ys] H; simpl in *;
    try discriminate; auto.
  f_equal. apply IH. lia.
Qed.

Lemma table_loc_ok (t : Table) (names : list label)
    (exog : list (label * list Q)) :
  table_loc t names = Ok exog ->
  map fst exog = names /\
  forall l xs, In (l, xs) exog -> column_of (series t) l = Ok xs.
Proof.
  unfold table_loc. revert exog.
  induction names as [|n names IH]; intros exog H; simpl in H.
  - inversion H; subst. split; [reflexivity | intros l xs []].
  - apply bind_ok in H. destruct H as (c & Hc & H).
    apply bind_ok in Hc. destruct Hc as (xs & Hxs & Hc). inversion Hc; subst c.
    apply bind_ok in H. destruct H as (rest & Hrest & H).
    inversion H; subst exog; clear H.
    destruct (IH rest Hrest) as (Hnames & Hcols). split.
    + simpl. now rewrite Hnames.
    + intros l ys [E|Hin]; [inversion E; subst; auto | eauto].
Qed.

Lemma table_loc_find (t : Table) (names : list label)
    (exog : list (label * list Q)) (l : label) (xs : list Q) :
  table_loc t names = Ok exog -> In l names ->
  column_of (series t) l = Ok xs -> In (l, xs) exog.
Proof.
  unfold table_loc. revert exog.
  induction names as [|n names IH]; intros exog H Hl Hxs; [destruct Hl|].
  simpl in H. apply bind_ok in H. destruct H as (c & Hc & H).
  apply bind_ok in Hc. destruct Hc as (ys & Hys & Hc). inversion Hc; subst c.
  apply bind_ok in H. destruct H as (rest & Hrest & H).
  inversion H; subst exog; clear H.
  destruct Hl as [->|Hl].
  - left. rewrite Hxs in Hys. now inversion Hys.
  - right. now apply IH.
Qed.

Section InnerFurther.

Variable ols_solver : list Q -> list (list Q) -> option (list Estimate).

Local Abbreviation init := (InnerModel_init ols_solver).
Local Abbreviation fit := (fit_one ols_solver).

Lemma OLS_fit_labels (endog : list Q) (exog : list (label * list Q))
    (regression : RegressionResults) :
  OLS_fit ols_solver endog exog = Ok regression ->
  map fst (terms regression) = map fst exog.
Proof.
  unfold OLS_fit. destruct (ols_solver endog (map snd exog)) as [est|];
    [|discriminate].
  destruct (Nat.eqb_spec (List.length est) (List.length exog)) as [E|_];
    [|discriminate].
  intros H. inversion H; subst; clear H. cbn [terms].
  apply map_fst_combine. now rewrite length_map.
Qed.

(** The labels of the fitted terms: the predictors, after [const] unless a
    column of scores is already a non-zero constant. *)
Lemma regress_labels (path : DataFrame Z) (scores : Table) (dv : label)
    (regression : RegressionResults) :
  regress ols_solver path scores dv = Ok regression ->
  exists exog,
    table_loc scores (predictors path dv) = Ok exog /\
    map fst (terms regression)
    = if existsb (fun c => is_const (snd c)) exog
      then predictors path dv
      else "const" :: predictors path dv.
Proof.
  intros H. apply regress_ok in H. destruct H as (exog & endog & He & _ & Hfit).
  exists exog. split; auto.
  rewrite (OLS_fit_labels _ _ _ Hfit). unfold add_constant.
  destruct (table_loc_ok _ _ _ He) as (Hnames & _).
  destruct (existsb _ exog); cbn [map fst]; now rewrite Hnames.
Qed.

Lemma summary_keys (dv : label) (regression : RegressionResults)
    (rows : list SummaryRow) :
  _summary dv regression = Ok rows ->
  label_in "const" (map fst (terms regression)) = true /\
  map summary_key rows
  = map (fun iv => (iv, dv))
      (filter (fun iv => negb (String.eqb iv "const"))
         (map fst (terms regression))).
Proof.
  unfold _summary.
  destruct (label_in "const" (map fst (terms regression))); [|discriminate].
  intros H. inversion H; subst; clear H. split; auto.
  rewrite filter_map_swap, !map_map. reflexivity.
Qed.

Lemma fit_one_keys (path : DataFrame Z) (scores : Table) (st st' : Fitting)
    (dv : label) :
  fit path scores st dv = Ok st' ->
  exists rows,
    f_summaries st' = Some (rows_of (f_summaries st) ++ rows) /\
    map summary_key rows = arrows_into path dv.
Proof.
  intros H. apply fit_one_ok in H.
  destruct H as (reg & rows & Hreg & Hsum & ->). exists rows. split.
  - cbn [f_summaries]. destruct (f_summaries st); reflexivity.
  - destruct (summary_keys _ _ _ Hsum) as (_ & ->).
    destruct (regress_labels _ _ _ _ Hreg) as (exog & _ & ->).
    unfold arrows_into. destruct (existsb _ exog); reflexivity.
Qed.

Lemma fit_loop_keys (path : DataFrame Z) (scores : Table)
    (dvs : list label) (st st' : Fitting) :
  for_each (fit path scores) dvs st = Ok st' ->
  map summary_key (rows_of (f_summaries st'))
  = map summary_key (rows_of (f_summaries st))
    ++ flat_map (arrows_into path) dvs /\
  (dvs <> [] -> f_summaries st' <> None).
Proof.
  revert st. induction dvs as [|dv dvs IH]; intros st H; simpl in H.
  - inversion H; subst. rewrite app_nil_r. split; [reflexivity | congruence].
  - apply bind_ok in H. destruct H as (st1 & H1 & H).
    apply fit_one_keys in H1. destruct H1 as (rows & Hs1 & Hkeys).
    destruct (IH st1 H) as (Hall & Hsome). split.
    + rewrite Hall, Hs1. cbn [rows_of flat_map].
      now rewrite map_app, Hkeys, app_assoc.
    + intros _. destruct dvs as [|d dvs].
      * simpl in H. inversion H; subst. rewrite Hs1. discriminate.
      * apply Hsome. discriminate.
Qed.

(** X6. As soon as one latent variable is endogenous, [inner_model()]
    returns a table, and its rows are the arrows of the path matrix: for
    each endogenous variable in turn, one row per predictor, in the order of
    the columns (a predictor named const is dropped with the intercept). *)
Theorem inner_model_rows (path : DataFrame Z) (scores : Table)
    (m : InnerModel) :
  init path scores = Ok m ->
  endogenous m <> [] ->
  exists rows,
    inner_model m = Ok rows /\
    map summary_key rows = flat_map (arrows_into path) (endogenous m).
Proof.
  intros H Hendo.
  apply init_ok in H. destruct H as (st & eff & Hloop & _ & ->).
  cbn [endogenous] in *. unfold inner_model. cbn [summaries].
  destruct (fit_loop_keys _ _ _ _ _ Hloop) as (Hkeys & Hsome).
  destruct (f_summaries st) as [rows|]; [|now destruct (Hsome Hendo)].
  exists rows. split; [reflexivity | exact Hkeys].
Qed.

(** X7. A path coefficient is 0 wherever the path matrix does not hold a
    1. *)
Theorem coefficient_zero_off_path (path : DataFrame Z) (scores : Table)
    (m : InnerModel) :
  init path scores = Ok m ->
  forall r c, cell path r c <> 1%Z -> cell (path_coefficients m) r c = 0.
Proof.
  intros H. apply init_ok in H. destruct H as (st & eff & Hloop & _ & ->).
  cbn [path_coefficients].
  apply (for_each_invariant (fit path scores)
           (fun st => forall r c, cell path r c <> 1%Z ->
                                  cell (f_path_coefficients st) r c = 0)
           (endogenous_of path)) with (s := initial path);
    [|reflexivity|exact Hloop].
  intros s dv s' _ Hs H1. apply fit_one_ok in H1.
  destruct H1 as (reg & rows & _ & _ & ->). intros r c Hrc.
  cbn [f_path_coefficients set_row cell].
  destruct (String.eqb_spec r dv) as [->|_]; cbn [andb]; [|now apply Hs].
  destruct (label_in c (predictors path dv)) eqn:Hc; [|now apply Hs].
  apply label_in_iff, filter_In in Hc. destruct Hc as (_ & Hc).
  apply Z.eqb_eq in Hc. contradiction.
Qed.

Lemma fit_loop_coefficients (path : DataFrame Z) (scores : Table)
    (dvs : list label) (st st' : Fitting) (dv : label) :
  NoDup dvs ->
  for_each (fit path scores) dvs st = Ok st' ->
  In dv dvs ->
  exists regression rows,
    regress ols_solver path scores dv = Ok regression /\
    _summary dv regression = Ok rows /\
    forall c, In c (predictors path dv) ->
      cell (f_path_coefficients st') dv c = param_of (terms regression) c.
Proof.
  intros Hnd. revert st.
  induction Hnd as [|d dvs Hd Hnd IH]; intros st H Hin; simpl in H.
  - destruct Hin.
  - apply bind_ok in H. destruct H as (st1 & H1 & H).
    apply fit_one_ok in H1. destruct H1 as (reg & rows & Hreg & Hsum & ->).
    destruct Hin as [->|Hin].
    + exists reg, rows. split; auto. split; auto. intros c Hc.
      destruct (fit_loop_untouched _ _ _ _ _ _ dv H Hd) as (_ & _ & Hcell & _).
      rewrite Hcell. cbn [f_path_coefficients set_row cell].
      rewrite String.eqb_refl. apply label_in_iff in Hc. now rewrite Hc.
    + now apply (IH _ H).
Qed.

(** X8. On a 0/1 path matrix, the path coefficient at an arrow
    [path[dv, iv] = 1] is the parameter that the regression of [dv] fitted
    for [iv]. *)
Theorem coefficient_on_path (path : DataFrame Z) (scores : Table)
    (m : InnerModel) (dv iv : label) :
  NoDup (index path) -> binary path ->
  init path scores = Ok m ->
  In dv (index path) -> In iv (columns path) -> cell path dv iv = 1%Z ->
  exists regression,
    regress ols_solver path scores dv = Ok regression /\
    cell (path_coefficients m) dv iv = param_of (terms regression) iv.
Proof.
  intros Hnd Hbin H Hdv Hiv Harrow.
  apply init_ok in H. destruct H as (st & eff & Hloop & _ & ->).
  cbn [path_coefficients].
  assert (Hpred : In iv (predictors path dv)).
  { apply filter_In. split; auto. now apply Z.eqb_eq. }
  assert (Hendo : In dv (endogenous_of path)).
  { apply endogenous_spec; auto. split; auto.
    rewrite row_sum_predictors by auto.
    destruct (predictors path dv); [destruct Hpred | simpl; lia]. }
  destruct (fit_loop_coefficients _ _ _ _ _ dv (NoDup_filter _ Hnd)
              Hloop Hendo) as (reg & rows & Hreg & _ & Hcell).
  exists reg. auto.
Qed.

(** X9. When the scores of every endogenous latent variable vary, no stored
    R-squared exceeds 1.  (Scores that do not vary leave R-squared undefined
    in the code, [-inf] or [nan].) *)
Theorem r_squared_at_most_one (path : DataFrame Z) (scores : Table)
    (m : InnerModel) :
  init path scores = Ok m ->
  (forall dv endog,
     In dv (endogenous m) -> column_of (series scores) dv = Ok endog ->
     varies endog) ->
  forall lv, s_value (r_squared m) lv <= 1.
Proof.
  intros H Hvar. apply init_ok in H.
  destruct H as (st & eff & Hloop & _ & ->).
  cbn [r_squared endogenous] in *.
  apply (for_each_invariant (fit path scores)
           (fun st => forall lv, s_value (f_r_squared st) lv <= 1)
           (endogenous_of path)) with (s := initial path);
    [| |exact Hloop].
  - intros s dv s' Hdv Hs H1. apply fit_one_ok in H1.
    destruct H1 as (reg & rows & Hreg & _ & ->). intros lv.
    cbn [f_r_squared series_set s_value].
    destruct (String.eqb lv dv); [|apply Hs].
    apply regress_ok in Hreg. destruct Hreg as (exog & endog & _ & Hy & Hfit).
    exact (rsquared_le_1 _ _ _ _ (Hvar dv endog Hdv Hy) Hfit).
  - intros lv. cbn. lra.
Qed.

(** ** The summary table against the path coefficients *)

Lemma summary_rows_in (dv : label) (regression : RegressionResults)
    (rows : list SummaryRow) (row : SummaryRow) :
  _summary dv regression = Ok rows -> In row rows ->
  exists l e,
    In (l, e) (terms regression) /\ l <> "const" /\
    row = mkSummary (arrow l dv) l dv (estimate e) (std_error e)
            (t_value e) (p_value e).
Proof.
  unfold _summary. destruct (label_in _ _); [|discriminate].
  intros H Hrow. inversion H; subst; clear H.
  apply in_map_iff in Hrow. destruct Hrow as ((l & e) & <- & Hin).
  apply filter_In in Hin. destruct Hin as (Hin & Hne).
  apply negb_true_iff, String.eqb_neq in Hne.
  exists l, e. auto.
Qed.

Lemma term_unique (ts : list (label * Estimate)) (l : label)
    (e e' : Estimate) :
  NoDup (filter (fun x => negb (String.eqb x "const")) (map fst ts)) ->
  l <> "const" -> In (l, e) ts -> In (l, e') ts -> e' = e.
Proof.
  intros Hnd Hl. apply String.eqb_neq in Hl.
  induction ts as [|(x & e0) ts IH]; intros He He'; [destruct He|].
  cbn [map fst filter] in Hnd.
  assert (Htail : forall e1, In (l, e1) ts ->
            In l (filter (fun x => negb (String.eqb x "const"))
                    (map fst ts))).
  { intros e1 H1. apply filter_In. split.
    - apply in_map_iff. exists (l, e1). auto.
    - now rewrite Hl. }
  destruct He as [E|He], He' as [E'|He'].
  - congruence.
  - inversion E; subst x e0. rewrite Hl in Hnd. cbn [negb] in Hnd.
    apply NoDup_cons_iff in Hnd. destruct Hnd as (Hn & _).
    destruct (Hn (Htail e' He')).
  - inversion E'; subst x e0. rewrite Hl in Hnd. cbn [negb] in Hnd.
    apply NoDup_cons_iff in Hnd. destruct Hnd as (Hn & _).
    destruct (Hn (Htail e He)).
  - apply IH; auto.
    destruct (negb (String.eqb x "const")); auto.
    now apply NoDup_cons_iff in Hnd.
Qed.

Lemma param_of_in (ts : list (label * Estimate)) (l : label) (e : Estimate) :
  In (l, e) ts -> (forall e', In (l, e') ts -> e' = e) ->
  param_of ts l = estimate e.
Proof.
  induction ts as [|(x & e0) ts IH]; intros Hin Huniq; [destruct Hin|].
  cbn [param_of]. destruct (String.eqb_spec x l) as [->|Hne].
  - now rewrite (Huniq e0 (or_introl eq_refl)).
  - destruct Hin as [E|Hin]; [congruence|].
    apply IH; auto. intros e' He'. apply Huniq. now right.
Qed.

Lemma fit_loop_estimates (path : DataFrame Z) (scores : Table)
    (dvs : list label) (st st' : Fitting) :
  NoDup (columns path) -> NoDup dvs ->
  for_each (fit path scores) dvs st = Ok st' ->
  forall row, In row (rows_of (f_summaries st')) ->
    In row (rows_of (f_summaries st)) \/
    (In (sm_to row) dvs /\
     sm_index row = arrow (sm_from row) (sm_to row) /\
     sm_estimate row
     = cell (f_path_coefficients st') (sm_to row) (sm_from row)).
Proof.
  intros Hcols Hnd. revert st.
  induction Hnd as [|d dvs Hd Hnd IH]; intros st H row Hrow; simpl in H.
  - inversion H; subst. now left.
  - apply bind_ok in H. destruct H as (st1 & H1 & H).
    apply fit_one_ok in H1. destruct H1 as (reg & rows & Hreg & Hsum & ->).
    destruct (IH _ H row Hrow) as [Hold | (Hto & Hidx & Hest)].
    + cbn [f_summaries] in Hold.
      assert (Hsplit : In row (rows_of (f_summaries st)) \/ In row rows).
      { destruct (f_summaries st); cbn [concat_summaries rows_of] in *;
          [now apply in_app_or | now right]. }
      destruct Hsplit as [Hst | Hnew]; [now left|]. right.
      destruct (summary_rows_in _ _ _ _ Hsum Hnew) as (l & e & Hin & Hl & ->).
      cbn [sm_to sm_from sm_index sm_estimate].
      split; [now left|]. split; [reflexivity|].
      destruct (fit_loop_untouched _ _ _ _ _ _ d H Hd) as (_ & _ & Hcell & _).
      rewrite Hcell. cbn [f_path_coefficients set_row cell].
      rewrite String.eqb_refl. cbn [andb].
      destruct (regress_labels _ _ _ _ Hreg) as (exog & _ & Hlabels).
      assert (Hpred : In l (predictors path d)).
      { assert (Hlab : In l (map fst (terms reg)))
          by (apply in_map_iff; exists (l, e); auto).
        rewrite Hlabels in Hlab.
        destruct (existsb _ exog); auto.
        destruct Hlab as [E|Hlab]; [congruence | exact Hlab]. }
      apply label_in_iff in Hpred. rewrite Hpred. symmetry.
      apply param_of_in; auto. intros e'.
      apply term_unique; auto. rewrite Hlabels.
      assert (Hp : NoDup (filter (fun x => negb (String.eqb x "const"))
                            (predictors path d)))
        by (apply NoDup_filter; now apply NoDup_filter).
      destruct (existsb _ exog); auto.
    + right. split; [now right | auto].
Qed.

(** X10. With unique labels, every row of [inner_model()] is labelled
    [from -> to], points to an endogenous latent variable, and carries as
    estimate the path coefficient at [to, from]. *)
Theorem summary_estimates (path : DataFrame Z) (scores : Table)
    (m : InnerModel) (rows : list SummaryRow) :
  NoDup (index path) -> NoDup (columns path) ->
  init path scores = Ok m ->
  inner_model m = Ok rows ->
  forall row, In row rows ->
    In (sm_to row) (endogenous m) /\
    sm_index row = arrow (sm_from row) (sm_to row) /\
    sm_estimate row = cell (path_coefficients m) (sm_to row) (sm_from row).
Proof.
  intros Hidx Hcols H Hrows row Hrow.
  apply init_ok in H. destruct H as (st & eff & Hloop & _ & ->).
  unfold inner_model in Hrows. cbn [summaries] in Hrows.
  cbn [endogenous path_coefficients].
  destruct (fit_loop_estimates _ _ _ _ _ Hcols (NoDup_filter _ Hidx) Hloop row)
    as [[] | Hgood]; auto.
  destruct (f_summaries st); [|discriminate].
  inversion Hrows; subst. exact Hrow.
Qed.

(** ** A predictor that does not vary *)

(** X11. When a predictor of an endogenous latent variable has scores that
    are one and the same non-zero number (and no predictor is named const),
    the construction fails: [add_constant] adds no intercept, and [_summary]
    finds no [const] row to drop. *)
Theorem constant_predictor_fails (path : DataFrame Z) (scores : Table)
    (dv iv : label) (xs : list Q) :
  In dv (endogenous_of path) ->
  In iv (predictors path dv) ->
  column_of (series scores) iv = Ok xs -> is_const xs = true ->
  ~ In "const" (predictors path dv) ->
  exists e, init path scores = Err e.
Proof.
  intros Hdv Hiv Hxs Hconst Hname.
  destruct (for_each_fails (fit path scores) (endogenous_of path) dv Hdv)
    with (s := initial path) as (e & He).
  - intros st. unfold fit_one.
    destruct (regress ols_solver path scores dv) as [reg|e] eqn:Hreg;
      cbn [bind]; [|eauto].
    destruct (regress_labels _ _ _ _ Hreg) as (exog & Hloc & Hlabels).
    assert (Hskip : existsb (fun c => is_const (snd c)) exog = true).
    { apply existsb_exists. exists (iv, xs). split; auto.
      apply (table_loc_find _ _ _ _ _ Hloc Hiv Hxs). }
    rewrite Hskip in Hlabels.
    destruct (aligned_params reg); cbn [bind]; [|eauto].
    unfold _summary. rewrite Hlabels.
    apply label_in_false in Hname. rewrite Hname. cbn [bind]. eauto.
  - unfold InnerModel_init. rewrite He. cbn [bind]. eauto.
Qed.

(** ** Where the effects begin and end *)

Lemma dict_get_set_cases (d : dict) (k k' : nat) (v p : DataFrame Q) :
  dict_get (dict_set d k v) k' = Ok p -> p = v \/ dict_get d k' = Ok p.
Proof.
  destruct (Nat.eq_dec k' k) as [->|Hne].
  - rewrite dict_get_set_same. intros H. inversion H. now left.
  - rewrite dict_get_set_other by exact Hne. now right.
Qed.

(** A property of matrices that the products and the sums of [_effects]
    preserve holds of the indirect and of the total effects. *)
Lemma effect_paths_closed (K : DataFrame Q -> Prop)
    (path indirect_paths total_paths : DataFrame Q) :
  K path -> K (df_full 0 (index path) (columns path)) ->
  (forall a c, K a -> dot a path = Ok c -> K c) ->
  (forall x y, K x -> K y -> K (df_add x y)) ->
  effect_paths path = Ok (indirect_paths, total_paths) ->
  K indirect_paths /\ K total_paths.
Proof.
  intros Hpath Hzero Hdot Hadd. unfold effect_paths.
  destruct (num_lvs path =? 2)%nat.
  - intros H. inversion H; subst. auto.
  - unfold general_paths, power_series. intros H.
    apply bind_ok in H. destruct H as ((pe & ind) & Hloop & H).
    inversion H; subst; clear H. cbn [snd].
    apply (for_each_invariant (series_step path)
             (fun st => (forall k p, dict_get (fst st) k = Ok p -> K p)
                        /\ K (snd st))) in Hloop.
    + destruct Hloop as (_ & Hind). cbn [snd] in Hind. auto.
    + intros (pe0 & ind0) i (pe1 & ind1) _ (Hpe & Hind) Hstep.
      cbn [fst snd] in *. unfold series_step in Hstep.
      apply bind_ok in Hstep. destruct Hstep as (prev & Hprev & Hstep).
      apply bind_ok in Hstep. destruct Hstep as (cur & Hcur & Hstep).
      inversion Hstep; subst; clear Hstep.
      assert (Kcur : K cur) by (apply (Hdot prev); eauto).
      split; [|auto].
      intros k p Hp. apply dict_get_set_cases in Hp.
      destruct Hp as [->|Hp]; eauto.
    + cbn [fst snd]. split; auto.
      intros k p. cbn [dict_get].
      destruct (Nat.eqb k 0); [|discriminate].
      intros H. now inversion H; subst.
Qed.

Lemma dot_row_zero (a b c : DataFrame Q) (r : label) :
  row_zero a r -> dot a b = Ok c -> row_zero c r.
Proof.
  unfold dot. destruct (_ || _); [discriminate|].
  intros Ha H k. inversion H; subst c; clear H. cbn [cell].
  apply Qsum_zero. intros x Hx.
  apply in_map_iff in Hx. destruct Hx as (j & <- & _).
  rewrite (Ha j). ring.
Qed.

Lemma dot_column_zero (a b c : DataFrame Q) (k : label) :
  column_zero b k -> dot a b = Ok c -> column_zero c k.
Proof.
  unfold dot. destruct (_ || _); [discriminate|].
  intros Hb H r. inversion H; subst c; clear H. cbn [cell].
  apply Qsum_zero. intros x Hx.
  apply in_map_iff in Hx. destruct Hx as (j & <- & _).
  rewrite (Hb j). ring.
Qed.

(** A coefficient is written only in the row of a regressed variable, at
    the columns of its predictors. *)
Lemma coefficient_support (path : DataFrame Z) (scores : Table)
    (st : Fitting) :
  for_each (fit path scores) (endogenous_of path) (initial path) = Ok st ->
  forall r c,
    ~ (In r (endogenous_of path) /\ In c (predictors path r)) ->
    cell (f_path_coefficients st) r c = 0.
Proof.
  intros Hloop.
  apply (for_each_invariant (fit path scores)
           (fun st => forall r c,
              ~ (In r (endogenous_of path) /\ In c (predictors path r)) ->
              cell (f_path_coefficients st) r c = 0)
           (endogenous_of path)) with (s := initial path);
    [|reflexivity|exact Hloop].
  intros s dv s' Hdv Hs H1. apply fit_one_ok in H1.
  destruct H1 as (reg & rows & _ & _ & ->). intros r c Hrc.
  cbn [f_path_coefficients set_row cell].
  destruct (String.eqb_spec r dv) as [->|_]; cbn [andb]; [|now apply Hs].
  destruct (label_in c (predictors path dv)) eqn:Hc; [|now apply Hs].
  apply label_in_iff in Hc. destruct Hrc. auto.
Qed.

(** X12. Every row of the effects table of an inner model goes from a
    predictor of some endogenous latent variable to an endogenous latent
    variable. *)
Theorem effects_follow_arrows (path : DataFrame Z) (scores : Table)
    (m : InnerModel) :
  init path scores = Ok m ->
  forall e, In e (effects m) ->
    In (e_to e) (endogenous m) /\
    exists dv, In dv (endogenous m) /\ In (e_from e) (predictors path dv).
Proof.
  intros H. apply init_ok in H. destruct H as (st & eff & Hloop & Heff & ->).
  cbn [effects endogenous].
  pose proof (coefficient_support _ _ _ Hloop) as Hsupp.
  set (coefs := f_path_coefficients st) in *.
  apply effects_ok in Heff. destruct Heff as (ind & tot & Hp & Hrows).
  apply (effect_rows_sound coefs ind tot eff); [|exact Hrows].
  intros f t _ _ _ Htot. cbn [effect_of e_to e_from]. split.
  - destruct (in_dec string_dec t (endogenous_of path)) as [Hin|Hout]; auto.
    exfalso. apply Htot.
    assert (Hrow : row_zero coefs t).
    { intros c. rewrite Hsupp; [reflexivity | tauto]. }
    destruct (effect_paths_closed (fun df => row_zero df t) coefs ind tot)
      as (_ & Hz); auto.
    + intros c. reflexivity.
    + intros a c Ha Hd. exact (dot_row_zero _ _ _ _ Ha Hd).
    + intros x y Hx Hy c. cbn [df_add cell]. rewrite (Hx c), (Hy c). ring.
  - destruct (existsb (fun dv => label_in f (predictors path dv))
                (endogenous_of path)) eqn:E.
    + apply existsb_exists in E. destruct E as (dv & Hdv & Hf).
      exists dv. split; auto. now apply label_in_iff.
    + exfalso. apply Htot.
      assert (Hcol : column_zero coefs f).
      { intros r. rewrite Hsupp; [reflexivity|].
        intros (Hr & Hf).
        assert (Ex : existsb (fun dv => label_in f (predictors path dv))
                       (endogenous_of path) = true).
        { apply existsb_exists. exists r. split; auto.
          now apply label_in_iff. }
        congruence. }
      destruct (effect_paths_closed (fun df => column_zero df f)
                  coefs ind tot) as (_ & Hz); auto.
      * intros r. reflexivity.
      * intros a c _ Hd. exact (dot_column_zero _ _ _ _ Hcol Hd).
      * intros x y Hx Hy r. cbn [df_add cell]. rewrite (Hx r), (Hy r). ring.
Qed.

End InnerFurther.

(** ** More on the outer model *)

Lemma sum_present_zero (g : label -> option Q) (ls : list label) :
  (forall k v, In k ls -> g k = Some v -> v == 0) ->
  Qsum (present_values (map g ls)) == 0.
Proof.
  intros H. apply Qsum_zero. intros x Hx.
  unfold present_values in Hx. apply in_flat_map in Hx.
  destruct Hx as (o & Ho & Hx). apply in_map_iff in Ho.
  destruct Ho as (k & <- & Hk).
  destruct (g k) as [v|] eqn:E; [|destruct Hx].
  destruct Hx as [<-|[]]. now apply (H k).
Qed.

Lemma present_values_none {A} (ls : list A) :
  present_values (map (fun _ => None) ls) = [].
Proof. induction ls; simpl; auto. Qed.

(** A row in which every present value but the one at [j] is zero sums to
    the value at [j], a missing one counting for nothing. *)
Lemma sum_present_at (g : label -> option Q) (ls : list label) (j : label) :
  NoDup ls -> In j ls ->
  (forall k v, In k ls -> k <> j -> g k = Some v -> v == 0) ->
  Qsum (present_values (map g ls))
  == match g j with Some v => v | None => 0 end.
Proof.
  induction 1 as [|x ls Hx Hnd IH]; intros Hj Hz; [destruct Hj|].
  cbn [map]. destruct (string_dec x j) as [->|Hne].
  - assert (Hrest : Qsum (present_values (map g ls)) == 0).
    { apply sum_present_zero. intros k v Hk. apply Hz; [now right|].
      intros ->. contradiction. }
    destruct (g j) as [v|].
    + change (present_values (Some v :: map g ls))
        with (v :: present_values (map g ls)).
      rewrite Qsum_cons, Hrest. ring.
    + exact Hrest.
  - destruct Hj as [E|Hj]; [contradiction|].
    assert (IH' := IH Hj (fun k v Hk => Hz k v (or_intror Hk))).
    destruct (g x) as [v|] eqn:Gx.
    + change (present_values (Some v :: map g ls))
        with (v :: present_values (map g ls)).
      rewrite Qsum_cons, IH', (Hz x v); auto; [ring | now left].
    + exact IH'.
Qed.

Lemma dot_axes (a b c : DataFrame Q) :
  dot a b = Ok c -> index c = index a /\ columns c = columns b.
Proof.
  unfold dot. destruct (_ || _); [discriminate|].
  intros H. inversion H. auto.
Qed.

Lemma r_squared_aux_index (odm : DataFrame Z) (r_squared aux : Series Q) :
  r_squared_aux odm r_squared = Ok aux -> s_index aux = index odm.
Proof.
  unfold r_squared_aux. intros H. apply bind_ok in H.
  destruct H as (prod & Hdot & H). inversion H; subst; clear H.
  apply dot_axes in Hdot. cbn [s_index]. tauto.
Qed.



Section OuterFurther.

Variable corr : list Q -> list Q -> option Q.

Local Abbreviation outer := (OuterModel_init corr).

(** X13. The loading of an indicator is its cross-loading with the latent
    variable that owns it; an undefined (NaN) cross-loading gives the
    loading 0, since the row sum skips missing values. *)
Theorem loading_of_owner (data y : Table) (weights : DataFrame Q)
    (odm : DataFrame Z) (r_squared : Series Q) (m : OuterModel)
    (i lv : label) :
  NoDup (table_columns y) -> NoDup (columns odm) ->
  outer data y weights odm r_squared = Ok m ->
  owner odm i lv ->
  In i (table_columns data) -> In lv (table_columns y) ->
  exists l,
    cell (model m) i "loading" = Some l /\
    l == match cell (crossloadings m) i lv with Some q => q | None => 0 end.
Proof.
  intros Hy Hodm H (Hi & Hlv & Hone & Hrest) Hdata Hscore.
  apply outer_ok in H. destruct H as (aux & _ & ->).
  cbn [model crossloadings]. set (cl := cross_loadings corr data y).
  rewrite concat_loading. unfold joined.
  assert (Hidx : label_in i (s_index (loading_of cl odm)) = true).
  { apply label_in_iff. unfold loading_of, sum_rows, mul_aligned.
    cbn [s_index index]. apply in_index_union. now right. }
  rewrite Hidx. eexists. split; [reflexivity|].
  unfold loading_of, sum_rows. cbn [s_value].
  rewrite (sum_present_at _ _ lv).
  - unfold mul_aligned, cl, cross_loadings. cbn [cell index columns].
    apply label_in_iff in Hdata, Hscore, Hi, Hlv.
    rewrite Hdata, Hscore, Hi, Hlv. cbn [andb]. rewrite Hone.
    destruct (match column_of (series data) i with
              | Ok x => _ | Err _ => None end) as [q|]; cbn [option_map].
    + change (inject_Z 1) with 1. ring.
    + reflexivity.
  - unfold mul_aligned. cbn [columns]. now apply NoDup_index_union.
  - unfold mul_aligned. cbn [columns]. apply in_index_union. now right.
  - intros k v _ Hk Gk. apply mul_aligned_some in Gk.
    destruct Gk as (x & _ & _ & Hkc & ->).
    rewrite (Hrest k Hkc Hk). change (inject_Z 0) with 0. ring.
Qed.

(** X14. An indicator that the outer design matrix lists but the data do
    not hold is not an error: it comes out with loading 0, communality 0
    and redundancy 0. *)
Theorem indicator_without_data (data y : Table) (weights : DataFrame Q)
    (odm : DataFrame Z) (r_squared : Series Q) (m : OuterModel)
    (i : label) :
  outer data y weights odm r_squared = Ok m ->
  In i (index odm) -> ~ In i (table_columns data) ->
  exists l c r,
    cell (model m) i "loading" = Some l /\ l == 0 /\
    cell (model m) i "communality" = Some c /\ c == 0 /\
    cell (model m) i "redundancy" = Some r /\ r == 0.
Proof.
  intros H Hi Hdata.
  apply outer_ok in H. destruct H as (aux & Haux & ->).
  apply r_squared_aux_index in Haux.
  cbn [model]. set (cl := cross_loadings corr data y).
  assert (Hidx : label_in i (s_index (loading_of cl odm)) = true).
  { apply label_in_iff. unfold loading_of, sum_rows, mul_aligned.
    cbn [s_index index]. apply in_index_union. now right. }
  assert (Hzero : s_value (loading_of cl odm) i = 0).
  { unfold loading_of, sum_rows, mul_aligned, cl, cross_loadings.
    cbn [s_value cell index columns].
    apply label_in_false in Hdata. rewrite Hdata. cbn [andb].
    now rewrite present_values_none. }
  assert (Haux' : label_in i (s_index aux) = true)
    by (rewrite Haux; now apply label_in_iff).
  assert (Hred : label_in i (index_union (s_index (loading_of cl odm))
                               (s_index aux)) = true).
  { apply label_in_iff, in_index_union. left. now apply label_in_iff. }
  rewrite concat_loading, concat_communality, concat_redundancy.
  unfold joined, mul_columns, communality_of. cbn [s_index s_value].
  rewrite Hidx, Hred, Haux', Hzero. cbn [andb].
  eexists _, _, _. repeat split; reflexivity.
Qed.



(** X17. For an indicator with an owner whose R-squared lies in [0, 1], the
    redundancy lies between 0 and the communality. *)
Theorem redundancy_bounded (data y : Table) (weights : DataFrame Q)
    (odm : DataFrame Z) (r_squared : Series Q) (m : OuterModel)
    (i lv : label) :
  NoDup (columns odm) -> NoDup (s_index r_squared) ->
  outer data y weights odm r_squared = Ok m ->
  owner odm i lv ->
  0 <= s_value r_squared lv <= 1 ->
  exists c r,
    cell (model m) i "communality" = Some c /\
    cell (model m) i "redundancy" = Some r /\
    0 <= r <= c.
Proof.
  intros Hodm Hr2 H Hown Hbound.
  apply outer_ok in H. destruct H as (aux & Haux & ->).
  destruct (r_squared_aux_owner _ _ _ _ _ Hodm Hr2 Haux Hown) as (Hin & Hval).
  set (cl := cross_loadings corr data y).
  assert (Hload : label_in i (s_index (loading_of cl odm)) = true).
  { apply label_in_iff. unfold loading_of, sum_rows, mul_aligned.
    cbn [s_index index]. apply in_index_union. right. apply Hown. }
  assert (Hred : label_in i (index_union (s_index (loading_of cl odm))
                               (s_index aux)) = true).
  { apply label_in_iff, in_index_union. left. now apply label_in_iff. }
  cbn [model]. rewrite concat_communality, concat_redundancy.
  unfold joined, mul_columns, communality_of. cbn [s_index s_value].
  rewrite Hload, Hred, Hin. cbn [andb].
  eexists _, _. split; [reflexivity|]. split; [reflexivity|].
  rewrite Hval. set (l := s_value (loading_of cl odm) i).
  change (l ^ 2) with (l * l). nra.
Qed.

End OuterFurther.

(** ** The order of the effects table *)

Lemma keys_of_pairs (path indirect_paths total_paths : DataFrame Q)
    (from_lv : label) (tos : list label) :
  map effect_key
    (flat_map (pair_rows path indirect_paths total_paths from_lv) tos)
  = filter (fun ft => has_effect total_paths (fst ft) (snd ft))
      (map (pair from_lv) tos).
Proof.
  induction tos as [|t tos IH]; [reflexivity|].
  cbn [flat_map map filter fst snd]. rewrite map_app, IH.
  unfold pair_rows. destruct (has_effect total_paths from_lv t); reflexivity.
Qed.

Lemma keys_of_rows (path indirect_paths total_paths : DataFrame Q)
    (froms tos : list label) :
  map effect_key
    (flat_map
       (fun from_lv =>
          flat_map (pair_rows path indirect_paths total_paths from_lv) tos)
       froms)
  = filter (fun ft => has_effect total_paths (fst ft) (snd ft))
      (list_prod froms tos).
Proof.
  induction froms as [|f froms IH]; [reflexivity|].
  cbn [flat_map list_prod]. now rewrite map_app, filter_app, IH, keys_of_pairs.
Qed.

(** X18. The rows of the effects table come in the order of the two loops:
    by [from] in the order of the columns, then by [to] in that order; each
    row is labelled [from -> to]. *)
Theorem effects_in_column_order (path : DataFrame Q) :
  square path ->
  exists indirect_paths total_paths rows,
    effect_paths path = Ok (indirect_paths, total_paths) /\
    _effects path = Ok rows /\
    map effect_key rows
    = filter (fun ft => has_effect total_paths (fst ft) (snd ft))
        (list_prod (columns path) (columns path)) /\
    forall e, In e rows -> e_index e = arrow (e_from e) (e_to e).
Proof.
  intros Hsq.
  destruct (effect_paths_ok path Hsq) as (ind & tot & Hpaths & Hind & Htot).
  pose proof (effect_rows_spec path ind tot Hsq Hind Htot) as Hrows.
  exists ind, tot. eexists. split; [exact Hpaths|]. split.
  { unfold _effects. rewrite Hpaths. cbn [bind fst snd]. exact Hrows. }
  split; [apply keys_of_rows|].
  apply (effect_rows_sound path ind tot _
           (fun e => e_index e = arrow (e_from e) (e_to e))); [|exact Hrows].
  intros f t _ _ _ _. reflexivity.
Qed.

(** ** The axes of the inner model *)

Section InnerAxes.

Variable ols_solver : list Q -> list (list Q) -> option (list Estimate).

(** X19. The tables of an inner model keep the axes of the path matrix:
    the path coefficients have its rows and columns, R-squared and adjusted
    R-squared have its rows, and the endogenous variables are rows of it. *)
Theorem inner_model_axes (path : DataFrame Z) (scores : Table)
    (m : InnerModel) :
  InnerModel_init ols_solver path scores = Ok m ->
  index (path_coefficients m) = index path /\
  columns (path_coefficients m) = columns path /\
  s_index (r_squared m) = index path /\
  s_index (r_squared_adj m) = index path /\
  incl (endogenous m) (index path).
Proof.
  intros H. apply init_ok in H. destruct H as (st & eff & Hloop & _ & ->).
  apply fit_loop_labels in Hloop. destruct Hloop as ((Hi & Hc) & Hr & Ha).
  cbn in *. repeat split; auto.
  intros dv Hdv. apply filter_In in Hdv. tauto.
Qed.

End InnerAxes.

(* ================================================================== *)
(** * The further properties at work *)

Lemma first_row_total :
  _effects chain_coefficients
  = Ok [mkEffect "A -> B" "A" "B" 2 0 2;
        mkEffect "A -> C" "A" "C" 0 6 6;
        mkEffect "B -> C" "B" "C" 3 0 3] /\
  6 == 0 + 6.
Proof.
  split; [exact chain_effects|].
  apply (total_is_direct_plus_indirect chain_coefficients _ chain_effects
           (mkEffect "A -> C" "A" "C" 0 6 6)).
  simpl. auto.
Defined.

Lemma single_arrow_direct_only :
  num_lvs arrow_coefficients = 2%nat /\
  _effects arrow_coefficients = Ok [mkEffect "X -> Y" "X" "Y" 2 0 2] /\
  e_indirect (mkEffect "X -> Y" "X" "Y" 2 0 2) = 0 /\
  e_total (mkEffect "X -> Y" "X" "Y" 2 0 2)
  = e_direct (mkEffect "X -> Y" "X" "Y" 2 0 2).
Proof.
  split; [reflexivity|]. split; [exact arrow_effects|].
  apply (two_variables_no_indirect arrow_coefficients _ eq_refl arrow_effects).
  simpl. auto.
Defined.

Lemma lonely_effects :
  (num_lvs lonely_coefficients < 2)%nat /\
  _effects lonely_coefficients = Ok [].
Proof.
  assert (H : (num_lvs lonely_coefficients < 2)%nat) by (vm_compute; lia).
  split; [exact H|]. exact (effects_of_one_variable lonely_coefficients H).
Defined.

Lemma skewed_effects :
  (2 < num_lvs skewed_coefficients)%nat /\
  _effects skewed_coefficients = Err ValueError.
Proof.
  assert (H : (2 < num_lvs skewed_coefficients)%nat) by (vm_compute; lia).
  split; [exact H|].
  apply (effects_not_aligned skewed_coefficients H).
  - distinct_labels.
  - distinct_labels.
  - intros E. destruct (proj1 (E "C")) as [D|[D|[D|[]]]];
      [simpl; auto | discriminate | discriminate | discriminate].
Defined.

Lemma offside_effects :
  columns offside_coefficients = ["X"; "Y"] /\
  NoDup (index offside_coefficients) /\
  ~ In "Y" (index offside_coefficients) /\
  _effects offside_coefficients = Err KeyError.
Proof.
  assert (H : ~ In "Y" (index offside_coefficients))
    by (simpl; intuition discriminate).
  assert (Hnd : NoDup (index offside_coefficients)) by distinct_labels.
  split; [reflexivity|]. split; [exact Hnd|]. split; [exact H|].
  apply (effects_missing_row offside_coefficients "X" "Y" eq_refl).
  - discriminate.
  - exact Hnd.
  - right. exact H.
Defined.

Lemma chain_has_endogenous : endogenous chain_model <> [].
Proof. vm_compute. discriminate. Qed.

Lemma chain_inner_model_rows :
  InnerModel_init normal_equations chain_path chain_scores = Ok chain_model /\
  endogenous chain_model <> [] /\
  exists rows,
    inner_model chain_model = Ok rows /\
    map summary_key rows = [("A", "B"); ("B", "C")].
Proof.
  split; [exact chain_fitted|]. split; [exact chain_has_endogenous|].
  destruct (inner_model_rows normal_equations chain_path chain_scores
              chain_model chain_fitted chain_has_endogenous)
    as (rows & Hrows & Hkeys).
  exists rows. split; [exact Hrows|].
  rewrite Hkeys. vm_compute. reflexivity.
Defined.

Lemma chain_no_arrow_A_to_C :
  InnerModel_init normal_equations chain_path chain_scores = Ok chain_model /\
  cell chain_path "C" "A" <> 1%Z /\
  cell (path_coefficients chain_model) "C" "A" = 0.
Proof.
  assert (H : cell chain_path "C" "A" <> 1%Z) by (vm_compute; discriminate).
  split; [exact chain_fitted|]. split; [exact H|].
  exact (coefficient_zero_off_path normal_equations chain_path chain_scores
           chain_model chain_fitted "C" "A" H).
Defined.

Lemma chain_arrow_A_to_B :
  NoDup (index chain_path) /\ binary chain_path /\
  InnerModel_init normal_equations chain_path chain_scores = Ok chain_model /\
  cell chain_path "B" "A" = 1%Z /\
  exists regression,
    regress normal_equations chain_path chain_scores "B" = Ok regression /\
    cell (path_coefficients chain_model) "B" "A"
    = param_of (terms regression) "A".
Proof.
  split; [exact chain_index_distinct|]. split; [exact chain_binary|].
  split; [exact chain_fitted|]. split; [reflexivity|].
  apply (coefficient_on_path normal_equations chain_path chain_scores
           chain_model "B" "A" chain_index_distinct chain_binary
           chain_fitted); [simpl; auto | simpl; auto | reflexivity].
Defined.

Lemma chain_r_squared_bounded :
  InnerModel_init normal_equations chain_path chain_scores = Ok chain_model /\
  varies [2; 3; 5; 9] /\ varies [1; 0; 4; 5] /\
  s_value (r_squared chain_model) "B" <= 1.
Proof.
  assert (HB : varies [2; 3; 5; 9])
    by (intros E; vm_compute in E; discriminate).
  assert (HC : varies [1; 0; 4; 5])
    by (intros E; vm_compute in E; discriminate).
  assert (Hvar : forall dv endog,
            In dv (endogenous chain_model) ->
            column_of (series chain_scores) dv = Ok endog -> varies endog).
  { intros dv endog Hdv E. vm_compute in Hdv.
    destruct Hdv as [<-|[<-|[]]]; vm_compute in E; inversion E; subst;
      assumption. }
  split; [exact chain_fitted|]. split; [exact HB|]. split; [exact HC|].
  exact (r_squared_at_most_one normal_equations chain_path chain_scores
           chain_model chain_fitted Hvar "B").
Defined.

Lemma chain_columns_distinct : NoDup (columns chain_path).
Proof. distinct_labels. Qed.

Lemma chain_summary_table :
  inner_model chain_model = Ok (rows_of (summaries chain_model)).
Proof.
  assert (H : is_ok (inner_model chain_model) = true)
    by (vm_compute; reflexivity).
  unfold inner_model in *. destruct (summaries chain_model);
    [reflexivity | discriminate].
Qed.

Lemma chain_summary_estimates :
  NoDup (index chain_path) /\ NoDup (columns chain_path) /\
  InnerModel_init normal_equations chain_path chain_scores = Ok chain_model /\
  inner_model chain_model = Ok (rows_of (summaries chain_model)) /\
  Forall (fun row =>
            sm_estimate row
            = cell (path_coefficients chain_model) (sm_to row) (sm_from row))
    (rows_of (summaries chain_model)).
Proof.
  split; [exact chain_index_distinct|]. split; [exact chain_columns_distinct|].
  split; [exact chain_fitted|]. split; [exact chain_summary_table|].
  apply Forall_forall. intros row Hrow.
  apply (summary_estimates normal_equations chain_path chain_scores
           chain_model _ chain_index_distinct chain_columns_distinct
           chain_fitted chain_summary_table row Hrow).
Defined.

Lemma flat_predictor_fails :
  In "Y" (endogenous_of arrow_path) /\
  In "X" (predictors arrow_path "Y") /\
  column_of (series flat_scores) "X" = Ok [2; 2; 2] /\
  is_const [2; 2; 2] = true /\
  ~ In "const" (predictors arrow_path "Y") /\
  exists e, InnerModel_init normal_equations arrow_path flat_scores = Err e.
Proof.
  assert (Hdv : In "Y" (endogenous_of arrow_path))
    by (vm_compute; left; reflexivity).
  assert (Hiv : In "X" (predictors arrow_path "Y"))
    by (vm_compute; left; reflexivity).
  assert (Hname : ~ In "const" (predictors arrow_path "Y"))
    by (vm_compute; intuition discriminate).
  split; [exact Hdv|]. split; [exact Hiv|]. split; [reflexivity|].
  split; [reflexivity|]. split; [exact Hname|].
  exact (constant_predictor_fails normal_equations arrow_path flat_scores
           "Y" "X" [2; 2; 2] Hdv Hiv eq_refl eq_refl Hname).
Defined.

Lemma chain_effects_follow_arrows :
  InnerModel_init normal_equations chain_path chain_scores = Ok chain_model /\
  Forall (fun e => In (e_to e) (endogenous chain_model))
    (effects chain_model).
Proof.
  split; [exact chain_fitted|].
  apply Forall_forall. intros e He.
  apply (effects_follow_arrows normal_equations chain_path chain_scores
           chain_model chain_fitted e He).
Defined.

Lemma block_scores_distinct : NoDup (table_columns block_scores).
Proof. distinct_labels. Qed.

Lemma block_odm_distinct : NoDup (columns block_odm).
Proof. distinct_labels. Qed.

Lemma block_r_squared_distinct : NoDup (s_index block_r_squared).
Proof. distinct_labels. Qed.

Lemma block_loading_y1 :
  NoDup (table_columns block_scores) /\ NoDup (columns block_odm) /\
  OuterModel_init pearson block_data block_scores block_weights block_odm
    block_r_squared = Ok block_model /\
  owner block_odm "y1" "Y" /\
  exists l,
    cell (model block_model) "y1" "loading" = Some l /\
    l == match cell (crossloadings block_model) "y1" "Y" with
         | Some q => q
         | None => 0
         end.
Proof.
  split; [exact block_scores_distinct|]. split; [exact block_odm_distinct|].
  split; [exact block_fitted|]. split; [exact block_owner|].
  apply (loading_of_owner pearson block_data block_scores block_weights
           block_odm block_r_squared block_model "y1" "Y"
           block_scores_distinct block_odm_distinct block_fitted block_owner);
    simpl; auto.
Defined.

Lemma other_fitted :
  OuterModel_init pearson other_data block_scores block_weights block_odm
    block_r_squared = Ok other_model.
Proof.
  assert (H : is_ok (OuterModel_init pearson other_data block_scores
                       block_weights block_odm block_r_squared) = true)
    by (vm_compute; reflexivity).
  unfold other_model.
  destruct (OuterModel_init pearson other_data block_scores block_weights
              block_odm block_r_squared); [reflexivity | discriminate].
Qed.

Lemma other_x2_without_data :
  OuterModel_init pearson other_data block_scores block_weights block_odm
    block_r_squared = Ok other_model /\
  In "x2" (index block_odm) /\ ~ In "x2" (table_columns other_data) /\
  exists l c r,
    cell (model other_model) "x2" "loading" = Some l /\ l == 0 /\
    cell (model other_model) "x2" "communality" = Some c /\ c == 0 /\
    cell (model other_model) "x2" "redundancy" = Some r /\ r == 0.
Proof.
  assert (Hi : In "x2" (index block_odm)) by (simpl; auto).
  assert (Hd : ~ In "x2" (table_columns other_data))
    by (simpl; intuition discriminate).
  split; [exact other_fitted|]. split; [exact Hi|]. split; [exact Hd|].
  exact (indicator_without_data pearson other_data block_scores
           block_weights block_odm block_r_squared other_model "x2"
           other_fitted Hi Hd).
Defined.



Lemma block_redundancy_y1_bounded :
  NoDup (columns block_odm) /\ NoDup (s_index block_r_squared) /\
  OuterModel_init pearson block_data block_scores block_weights block_odm
    block_r_squared = Ok block_model /\
  owner block_odm "y1" "Y" /\
  0 <= s_value block_r_squared "Y" <= 1 /\
  exists c r,
    cell (model block_model) "y1" "communality" = Some c /\
    cell (model block_model) "y1" "redundancy" = Some r /\
    0 <= r <= c.
Proof.
  assert (Hb : 0 <= s_value block_r_squared "Y" <= 1)
    by (split; vm_compute; discriminate).
  split; [exact block_odm_distinct|]. split; [exact block_r_squared_distinct|].
  split; [exact block_fitted|]. split; [exact block_owner|].
  split; [exact Hb|].
  exact (redundancy_bounded pearson block_data block_scores block_weights
           block_odm block_r_squared block_model "y1" "Y" block_odm_distinct
           block_r_squared_distinct block_fitted block_owner Hb).
Defined.

Lemma chain_effects_order :
  square chain_coefficients /\
  exists rows,
    _effects chain_coefficients = Ok rows /\
    map effect_key rows = [("A", "B"); ("A", "C"); ("B", "C")].
Proof.
  split; [exact chain_coefficients_square|].
  destruct (effects_in_column_order chain_coefficients
              chain_coefficients_square)
    as (ind & tot & rows & Hp & Hrows & Hkeys & _).
  exists rows. split; [exact Hrows|].
  rewrite chain_effects in Hrows. inversion Hrows; subst rows.
  vm_compute. reflexivity.
Defined.

Lemma chain_axes :
  InnerModel_init normal_equations chain_path chain_scores = Ok chain_model /\
  index (path_coefficients chain_model) = index chain_path /\
  columns (path_coefficients chain_model) = columns chain_path /\
  s_index (r_squared chain_model) = index chain_path.
Proof.
  split; [exact chain_fitted|].
  destruct (inner_model_axes normal_equations chain_path chain_scores
              chain_model chain_fitted) as (Hi & Hc & Hr & _).
  repeat split; assumption.
Defined.
